(** * db_comparison.py: structural comparison and synchronisation of two
      MySQL schemas

    A shallow embedding of the class [DatabaseComparator] of
    [db_comparison.py] and the properties of its structural diff, its DDL
    synthesis and its synchronisation routine.

    Strings are Rocq strings (sequences of 8-bit characters).  Python's
    [str.lower], [str.upper] and [str.strip] are embedded on the ASCII range,
    which is where the type names, the keyword [CURRENT_TIMESTAMP] and the
    white space of a MySQL statement live; characters above 127 are left
    as they are.

    The two databases are external.  They are represented by two records of
    answers: [Catalog], what [connect] and the introspection queries are
    answered, and [Server], what every call of a synchronisation run is
    answered, as a function of all the calls made on the two connections
    before.  The code itself is written in a small monad that records every
    call in a trace. *)

From Stdlib Require Import String Ascii List Bool Arith Lia.
From stdpp Require Import base gmap strings list.

Local Open Scope string_scope.
Local Open Scope list_scope.

(** ** Python string operations *)

Module PyStr.

(** [str.lower] and [str.upper], one character at a time. *)
Definition lower_char (c : ascii) : ascii :=
  let n := nat_of_ascii c in
  if Nat.leb 65 n && Nat.leb n 90 then ascii_of_nat (n + 32) else c.

Definition upper_char (c : ascii) : ascii :=
  let n := nat_of_ascii c in
  if Nat.leb 97 n && Nat.leb n 122 then ascii_of_nat (n - 32) else c.

Fixpoint lower (s : string) : string :=
  match s with
  | EmptyString => EmptyString
  | String c s' => String (lower_char c) (lower s')
  end.

Fixpoint upper (s : string) : string :=
  match s with
  | EmptyString => EmptyString
  | String c s' => String (upper_char c) (upper s')
  end.

(** [sub in s]: [sub] occurs in [s] as a contiguous substring. *)
Fixpoint contains (sub s : string) : bool :=
  String.prefix sub s ||
  match s with
  | EmptyString => false
  | String _ s' => contains sub s'
  end.

(** The characters [str.isspace] accepts in the ASCII range. *)
Definition isspace (c : ascii) : bool :=
  let n := nat_of_ascii c in
  (Nat.leb 9 n && Nat.leb n 13) || (Nat.leb 28 n && Nat.leb n 32).

Fixpoint lstrip (s : string) : string :=
  match s with
  | EmptyString => EmptyString
  | String c s' => if isspace c then lstrip s' else s
  end.

Definition strip (s : string) : string :=
  String.rev (lstrip (String.rev (lstrip s))).

(** [s.rsplit(sep, 1)] for a one-character separator: [None] when [sep]
    does not occur (Python returns the one-element list [[s]]), the text
    before and after the last occurrence otherwise. *)
Fixpoint rsplit1 (sep : ascii) (s : string) : option (string * string) :=
  match s with
  | EmptyString => None
  | String c s' =>
      match rsplit1 sep s' with
      | Some (before, after) => Some (String c before, after)
      | None =>
          if Ascii.eqb c sep then Some (EmptyString, s') else None
      end
  end.

End PyStr.

(** ** Column descriptors

    One row of [SHOW COLUMNS FROM t], which [get_table_structure] fetches
    with a dictionary cursor: the keys [Field], [Type], [Null], [Key],
    [Default] and [Extra].  [Default] is [None] for SQL NULL. *)

Record Column : Type := mkColumn {
  Field : string;
  Type_ : string;
  Null : string;
  Key : string;
  Default : option string;
  Extra : string
}.

Global Instance Column_eq_dec : EqDecision Column.
Proof. solve_decision. Defined.

(** ** DDL synthesis: [generate_alter_statements] *)

(** The DEFAULT clause chosen for a non-null default [d] of a column of
    type [ty] (the inner [if]/[elif]/[else]). *)
Definition default_clause (ty d : string) : string :=
  if (String.eqb (PyStr.lower ty) "timestamp" || String.eqb (PyStr.lower ty) "datetime")
     && String.eqb (PyStr.upper d) "CURRENT_TIMESTAMP"
  then " DEFAULT CURRENT_TIMESTAMP"
  else if PyStr.contains "char" (PyStr.lower ty) || PyStr.contains "text" (PyStr.lower ty)
  then " DEFAULT '" +:+ d +:+ "'"
  else " DEFAULT " +:+ d.

(** The statement built for one column that is to be added: the body of the
    [if col['Field'] not in source_col_names] branch, [stmt] being extended
    step by step. *)
Definition add_column_statement (table_name : string) (col : Column) : string :=
  let stmt := "ALTER TABLE " +:+ table_name +:+ " ADD COLUMN " +:+ Field col
              +:+ " " +:+ Type_ col in
  let stmt := if String.eqb (Null col) "NO" then stmt +:+ " NOT NULL" else stmt in
  let stmt := match Default col with
              | Some d => stmt +:+ default_clause (Type_ col) d
              | None => stmt
              end in
  stmt.

(** [source_col_names = {col['Field'] for col in source_cols}] *)
Definition col_names (cols : list Column) : gset string :=
  list_to_set (Field <$> cols).

(** The loop over [target_cols], appending to [alter_statements]. *)
Fixpoint alter_loop (table_name : string) (source_col_names : gset string)
    (target_cols : list Column) (alter_statements : list string) : list string :=
  match target_cols with
  | [] => alter_statements
  | col :: rest =>
      if decide (Field col ∈ source_col_names)
      then alter_loop table_name source_col_names rest alter_statements
      else alter_loop table_name source_col_names rest
             (alter_statements ++ [add_column_statement table_name col])
  end.

Definition generate_alter_statements (table_name : string)
    (source_cols target_cols : list Column) : list string :=
  let alter_statements := [] in
  let source_col_names := col_names source_cols in
  let target_col_names := col_names target_cols in
  alter_loop table_name source_col_names target_cols alter_statements.

(** ** The SQL text the code sends

    Every statement is the literal of the source, white space included. *)

Module SQL.
(** [handle_dosen_tables], step 1: the foreign keys of [dosen_wali_prodi]. *)
Definition select_constraints : string :=
"
                    SELECT CONSTRAINT_NAME
                    FROM information_schema.KEY_COLUMN_USAGE
                    WHERE TABLE_SCHEMA = DATABASE()
                    AND TABLE_NAME = 'dosen_wali_prodi'
                    AND REFERENCED_TABLE_NAME IS NOT NULL
                ".

(** [handle_dosen_tables], step 2: is there an index [idx_dosen_nidn]? *)
Definition select_index_count : string :=
"
                    SELECT COUNT(1) 
                    FROM information_schema.STATISTICS 
                    WHERE TABLE_SCHEMA = DATABASE()
                    AND TABLE_NAME = 'dosen' 
                    AND INDEX_NAME = 'idx_dosen_nidn'
                ".

(** [handle_dosen_tables], step 3: the fixed schema of [dosen_wali_prodi]. *)
Definition create_dosen_wali_prodi : string :=
"
                CREATE TABLE dosen_wali_prodi (
                    id int NOT NULL AUTO_INCREMENT,
                    nidn varchar(20) CHARACTER SET latin1 COLLATE latin1_swedish_ci DEFAULT NULL,
                    prodi_id int DEFAULT NULL,
                    tahun_ajar varchar(9) DEFAULT NULL,
                    created_at datetime DEFAULT CURRENT_TIMESTAMP,
                    updated_at datetime DEFAULT CURRENT_TIMESTAMP ON UPDATE CURRENT_TIMESTAMP,
                    PRIMARY KEY (id),
                    UNIQUE KEY unique_prodi_tahun (prodi_id,tahun_ajar),
                    KEY nidn (nidn)
                ) ENGINE=InnoDB DEFAULT CHARSET=latin1
            ".

(** [handle_dosen_tables], step 4: first foreign key. *)
Definition add_ibfk_1 : string :=
"
                ALTER TABLE dosen_wali_prodi
                ADD CONSTRAINT dosen_wali_prodi_ibfk_1 
                FOREIGN KEY (nidn) REFERENCES dosen (nidn)
            ".

(** [handle_dosen_tables], step 4: second foreign key. *)
Definition add_ibfk_2 : string :=
"
                ALTER TABLE dosen_wali_prodi
                ADD CONSTRAINT dosen_wali_prodi_ibfk_2 
                FOREIGN KEY (prodi_id) REFERENCES prodi (id_prodi)
            ".

(** [sync_structures]: the foreign keys the target defines for a table. *)
Definition select_foreign_keys : string :=
"
                        SELECT 
                            COLUMN_NAME,
                            REFERENCED_TABLE_NAME,
                            REFERENCED_COLUMN_NAME,
                            CONSTRAINT_NAME
                        FROM information_schema.KEY_COLUMN_USAGE
                        WHERE TABLE_SCHEMA = %s
                        AND TABLE_NAME = %s
                        AND REFERENCED_TABLE_NAME IS NOT NULL
                    ".

(** [sync_structures]: the ON DELETE and ON UPDATE rules of a constraint. *)
Definition select_rules : string :=
"
                                SELECT DELETE_RULE, UPDATE_RULE
                                FROM information_schema.REFERENTIAL_CONSTRAINTS
                                WHERE CONSTRAINT_SCHEMA = %s AND CONSTRAINT_NAME = %s
                            ".

(** The three session and table statements of [handle_dosen_tables] and
    [sync_structures] that are plain one-line literals. *)
Definition fk_checks_off : string := "SET FOREIGN_KEY_CHECKS=0".
Definition fk_checks_on : string := "SET FOREIGN_KEY_CHECKS=1".
Definition drop_dosen_wali_prodi : string := "DROP TABLE IF EXISTS dosen_wali_prodi".
Definition add_index_nidn : string :=
  "ALTER TABLE dosen ADD UNIQUE INDEX idx_dosen_nidn (nidn)".

(** [f"ALTER TABLE dosen_wali_prodi DROP FOREIGN KEY `{constraint_name}`"] *)
Definition drop_foreign_key (constraint_name : string) : string :=
  "ALTER TABLE dosen_wali_prodi DROP FOREIGN KEY `" +:+ constraint_name +:+ "`".

(** [f"SHOW CREATE TABLE {table}"] *)
Definition show_create_table (table : string) : string :=
  "SHOW CREATE TABLE " +:+ table.

(** The f-string that starts [fk_stmt]. *)
Definition add_constraint (table col ref_table ref_col : string) : string :=
"
                                ALTER TABLE " +:+ table +:+ "
                                ADD CONSTRAINT `fk_" +:+ table +:+ "_" +:+ ref_table +:+ "_" +:+ col +:+ "`
                                FOREIGN KEY (" +:+ col +:+ ")
                                REFERENCES " +:+ ref_table +:+ "(" +:+ ref_col +:+ ")
                            ".

(** [f"ALTER TABLE {table} ADD INDEX (`{col}`)"] *)
Definition add_index (table col : string) : string :=
  "ALTER TABLE " +:+ table +:+ " ADD INDEX (`" +:+ col +:+ "`)".

End SQL.

(** ** The two databases

    [conn] names the two connections of a comparator, [self.source_conn] and
    [self.target_conn]. *)

Inductive conn : Type := Source | Target.

Global Instance conn_eq_dec : EqDecision conn.
Proof. solve_decision. Defined.

(** What [connect] and the two introspection queries are answered.
    [inl e] stands for a raised [mysql.connector.Error] whose text is [e]. *)
Record Catalog : Type := mkCatalog {
  connect_error : conn -> option string;
  show_tables : conn -> string + list string;
  show_columns : conn -> string -> string + list Column
}.

(** One call on a connection during a synchronisation run, with what came
    of it: [error = Some e] when the call raised [Error] with text [e]. *)
Inductive event : Type :=
| Execute (c : conn) (operation : string) (params : list string) (error : option string)
| Commit (error : option string)
| Rollback (raised : bool).

(** How the servers answer during a synchronisation run.  Every answer may
    depend on all the calls made so far.  The rows have the shape that the
    query which fetches them fixes: one name per row for the constraint
    query, one count for [SELECT COUNT(1)], the [CREATE TABLE] text in the
    second column of [SHOW CREATE TABLE], four names per foreign key, and at
    most one pair of rules.  Opening a cursor on a connection that [connect]
    has just established is taken to succeed. *)
Record Server : Type := mkServer {
  target_database : string;
  execute_error : list event -> conn -> string -> list string -> option string;
  commit_error : list event -> option string;
  rollback_error : list event -> bool;
  constraint_rows : list event -> list string;
  index_count : list event -> Z;
  create_table_row : list event -> string;
  foreign_key_rows : list event -> list (string * string * string * string);
  rules_row : list event -> option (string * string)
}.

(** ** Introspection and the structural diff *)

Section Comparison.

Variable cat : Catalog.

(** [connect]: both connections, the source first; any [Error] is logged
    and turned into [False]. *)
Definition connect : bool :=
  match connect_error cat Source with
  | Some _ => false
  | None =>
      match connect_error cat Target with
      | Some _ => false
      | None => true
      end
  end.

(** [get_tables]: the first column of [SHOW TABLES], or [[]] on [Error]. *)
Definition get_tables (connection : conn) : list string :=
  match show_tables cat connection with
  | inr tables => tables
  | inl _ => []
  end.

(** [get_table_structure]: the rows of [SHOW COLUMNS], or [[]] on [Error]. *)
Definition get_table_structure (connection : conn) (table_name : string) : list Column :=
  match show_columns cat connection table_name with
  | inr columns => columns
  | inl _ => []
  end.

(** One round of the loop over [common_tables]. *)
Definition compare_table (different_structures : gmap string (list Column * list Column))
    (table : string) : gmap string (list Column * list Column) :=
  let source_structure := get_table_structure Source table in
  let target_structure := get_table_structure Target table in
  if decide (source_structure ≠ target_structure)
  then <[table := (source_structure, target_structure)]> different_structures
  else different_structures.

(** [compare_structures].  A Python set is iterated in an order the language
    does not fix; here it is the order of [elements]. *)
Definition compare_structures
    : list string * list string * gmap string (list Column * list Column) :=
  if negb connect then ([], [], ∅)
  else
    let source_tables : gset string := list_to_set (get_tables Source) in
    let target_tables : gset string := list_to_set (get_tables Target) in
    let missing_in_source := elements (target_tables ∖ source_tables) in
    let missing_in_target := elements (source_tables ∖ target_tables) in
    let common_tables := source_tables ∩ target_tables in
    let different_structures := foldl compare_table ∅ (elements common_tables) in
    (missing_in_source, missing_in_target, different_structures).

End Comparison.

(** ** Running code against the servers

    A computation reads the calls made so far and yields an outcome together
    with the calls it made itself. *)

Inductive outcome (A : Type) : Type :=
| Returned (a : A)
| Raised (e : string)
| Crashed.
Arguments Returned {A} a.
Arguments Raised {A} e.
Arguments Crashed {A}.

Definition Run (A : Type) : Type := list event -> outcome A * list event.

Global Instance Run_ret : MRet Run := fun A a _ => (Returned a, []).

Global Instance Run_bind : MBind Run := fun A B k m h =>
  match m h with
  | (Returned a, t) => let (r, t') := k a (h ++ t) in (r, t ++ t')
  | (Raised e, t) => (Raised e, t)
  | (Crashed, t) => (Crashed, t)
  end.

(** [raise e] for a [mysql.connector.Error]. *)
Definition raise {A} (e : string) : Run A := fun _ => (Raised e, []).

(** Any exception that is not a [mysql.connector.Error]. *)
Definition crash {A} : Run A := fun _ => (Crashed, []).

(** [try: m  except Error as e: handler e] *)
Definition try_except {A} (m : Run A) (handler : string -> Run A) : Run A := fun h =>
  match m h with
  | (Raised e, t) => let (r, t') := handler e (h ++ t) in (r, t ++ t')
  | other => other
  end.

(** [for x in l: s = body s x], the loop variable state [s] being whatever
    the body assigns that outlives a round. *)
Fixpoint for_in {A S} (l : list A) (body : S -> A -> Run S) (s : S) : Run S :=
  match l with
  | [] => mret s
  | x :: l' => s' ← body s x; for_in l' body s'
  end.

Section Calls.

Variable srv : Server.

(** [cursor.execute(operation, params)] on a cursor of connection [c]. *)
Definition execute (c : conn) (operation : string) (params : list string) : Run unit :=
  fun h =>
    let error := execute_error srv h c operation params in
    (match error with Some e => Raised e | None => Returned tt end,
     [Execute c operation params error]).

(** [self.source_conn.commit()] *)
Definition commit : Run unit := fun h =>
  let error := commit_error srv h in
  (match error with Some e => Raised e | None => Returned tt end, [Commit error]).

(** [try: self.source_conn.rollback()  except: pass] *)
Definition rollback_quietly : Run unit := fun h =>
  (Returned tt, [Rollback (rollback_error srv h)]).

(** [fetchall()] and [fetchone()] after a query that went through. *)
Definition fetch {A} (rows : Server -> list event -> A) : Run A := fun h =>
  (Returned (rows srv h), []).

End Calls.

(** ** Synchronisation *)

(** [table in {'dosen', 'dosen_wali_prodi'}] *)
Definition is_special (table : string) : bool :=
  String.eqb table "dosen" || String.eqb table "dosen_wali_prodi".

Section Synchronisation.

Variable srv : Server.

(** The two [re.sub] calls of [sync_structures] on the [CREATE TABLE] text:
    the one that removes the inline [CONSTRAINT ... FOREIGN KEY] clauses and
    the one that removes [AUTO_INCREMENT=<n>] from the table options.  The
    regular-expression engine is Python's; its result is taken as given. *)
Variable strip_foreign_keys : string -> string.
Variable strip_auto_increment : string -> string.

(** *** The handler of the two special tables: [handle_dosen_tables] *)

(** Step 1, inside its own [try]: drop the foreign keys of
    [dosen_wali_prodi]; an [Error] is logged and dropped. *)
Definition drop_constraints : Run unit :=
  try_except
    (execute srv Source SQL.select_constraints [];;
     constraints ← fetch srv constraint_rows;
     for_in constraints
       (fun _ constraint_name =>
          execute srv Source (SQL.drop_foreign_key constraint_name) [])
       tt)
    (fun e => mret tt).

(** Step 2, inside its own [try]: add the unique index on [dosen.nidn]
    unless it exists; an [Error] is raised again unless its text has
    [Duplicate] in it. *)
Definition fix_dosen_index : Run unit :=
  try_except
    (execute srv Source SQL.select_index_count [];;
     count ← fetch srv index_count;
     let index_exists := (0 <? count)%Z in
     if negb index_exists
     then execute srv Source SQL.add_index_nidn []
     else mret tt)
    (fun e => if negb (PyStr.contains "Duplicate" e) then raise e else mret tt).

(** Steps 3 and 4 and the commit. *)
Definition recreate_dosen_wali_prodi : Run unit :=
  execute srv Source SQL.drop_dosen_wali_prodi [];;
  execute srv Source SQL.create_dosen_wali_prodi [];;
  execute srv Source SQL.fk_checks_off [];;
  execute srv Source SQL.add_ibfk_1 [];;
  execute srv Source SQL.add_ibfk_2 [];;
  execute srv Source SQL.fk_checks_on [];;
  commit srv.

Definition handle_dosen_tables : Run bool :=
  try_except
    (drop_constraints;;
     fix_dosen_index;;
     recreate_dosen_wali_prodi;;
     mret true)
    (fun e => rollback_quietly srv;; mret false).

(** *** Tables missing in the source *)

(** The [except Error] branch of the foreign-key loop.  [fk_stmt] is the
    local variable of that name as it is bound when the handler runs: [None]
    while it has never been assigned, in which case reading it raises
    [UnboundLocalError]. *)
Definition on_foreign_key_error (table col : string) (fk_stmt : option string)
    (e : string) : Run unit :=
  if PyStr.contains "Missing index" e then
    execute srv Source (SQL.add_index table col) [];;
    match fk_stmt with
    | Some stmt => execute srv Source stmt []
    | None => crash
    end
  else mret tt.

(** One round of [for col, ref_table, ref_col, constraint_name in ...]. *)
Definition add_foreign_key (table : string) (fk_stmt : option string)
    (row : string * string * string * string) : Run (option string) :=
  let '(col, ref_table, ref_col, constraint_name) := row in
  failed ← try_except
             (execute srv Target SQL.select_rules [target_database srv; constraint_name];;
              mret None)
             (fun e => mret (Some e));
  match failed with
  | Some e => on_foreign_key_error table col fk_stmt e;; mret fk_stmt
  | None =>
      rules ← fetch srv rules_row;
      let '(delete_rule, update_rule) := default ("RESTRICT", "RESTRICT") rules in
      let stmt := SQL.add_constraint table col ref_table ref_col in
      let stmt := if negb (String.eqb delete_rule "RESTRICT")
                  then stmt +:+ " ON DELETE " +:+ delete_rule else stmt in
      let stmt := if negb (String.eqb update_rule "RESTRICT")
                  then stmt +:+ " ON UPDATE " +:+ update_rule else stmt in
      try_except
        (execute srv Source stmt [])
        (fun e => on_foreign_key_error table col (Some stmt) e);;
      mret (Some stmt)
  end.

(** What is done to the text of [SHOW CREATE TABLE] before it is executed. *)
Definition clean_create_statement (create_stmt : string) : string :=
  let create_stmt := strip_foreign_keys create_stmt in
  match PyStr.rsplit1 ")"%char create_stmt with
  | Some (main_body, table_options) =>
      let table_options := strip_auto_increment (PyStr.strip table_options) in
      main_body +:+ ") " +:+ table_options
  | None => create_stmt
  end.

(** One round of [for table in missing_in_source]. *)
Definition create_missing_table (fk_stmt : option string) (table : string)
    : Run (option string) :=
  if negb (is_special table) then
    execute srv Target (SQL.show_create_table table) [];;
    create_stmt ← fetch srv create_table_row;
    let create_stmt := clean_create_statement create_stmt in
    try_except (execute srv Source create_stmt []) (fun e => raise e);;
    execute srv Target SQL.select_foreign_keys [target_database srv; table];;
    rows ← fetch srv foreign_key_rows;
    for_in rows (add_foreign_key table) fk_stmt
  else mret fk_stmt.

(** *** [sync_structures]

    The body of the method up to the [return False] of its [except] clause.
    Every path through the [try] statement returns or raises, so the text
    that follows it in the source (two older copies of the same routine) is
    never reached. *)

(** The [try] block once the diff is known not to be empty. *)
Definition synchronise (missing_in_source : list string)
    (different_structures : gmap string (list Column * list Column)) : Run bool :=
  try_except
    (execute srv Source SQL.fk_checks_off [];;
     handled ← (if existsb is_special missing_in_source
                   || existsb is_special (map_to_list different_structures).*1
                then handle_dosen_tables
                else mret true);
     if negb handled then mret false
     else
       for_in missing_in_source create_missing_table None;;
       execute srv Source SQL.fk_checks_on [];;
       commit srv;;
       mret true)
    (fun e => rollback_quietly srv;; mret false).

Variable cat : Catalog.

Definition sync_structures : outcome bool * list event :=
  let '(missing_in_source, _, different_structures) := compare_structures cat in
  if negb (bool_decide (missing_in_source ≠ []) || bool_decide (different_structures ≠ ∅))
  then (Returned true, [])
  else synchronise missing_in_source different_structures [].

(** *** The loop of the unreachable copies

    [for table, structures in different_structures.items()], which both
    copies of the routine that follow the reachable one contain, and which
    the reachable one replaces by the comment
    [# [Handle different structures code remains the same]]. *)
Definition alter_table (table : string) (structures : list Column * list Column)
    : Run unit :=
  if negb (is_special table) then
    let alter_statements :=
      generate_alter_statements table structures.1 structures.2 in
    for_in alter_statements
      (fun _ stmt => try_except (execute srv Source stmt []) (fun e => raise e)) tt
  else mret tt.

Definition alter_different_structures
    (different_structures : gmap string (list Column * list Column)) : Run unit :=
  for_in (map_to_list different_structures) (fun _ '(table, structures) => alter_table table structures) tt.

End Synchronisation.


(** ** Notions the properties are stated with *)

(** The column as it would be were its default NULL: what the statement is
    before the DEFAULT clause is appended. *)
Definition without_default (col : Column) : Column :=
  mkColumn (Field col) (Type_ col) (Null col) (Key col) None (Extra col).

(** The three tests of the DEFAULT clause. *)
Definition is_timestamp_type (ty : string) : Prop :=
  PyStr.lower ty = "timestamp" \/ PyStr.lower ty = "datetime".


Definition is_character_type (ty : string) : Prop :=
  PyStr.contains "char" (PyStr.lower ty) = true \/
  PyStr.contains "text" (PyStr.lower ty) = true.


(** *** Reading a trace *)

(** A statement on the source connection that went through. *)
Definition went_through (operation : string) : event :=
  Execute Source operation [] None.

(** [SET FOREIGN_KEY_CHECKS=0] having gone through. *)
Definition off_ok : event := went_through SQL.fk_checks_off.

(** The operations that went through on connection [c], in order. *)
Definition executed (c : conn) (t : list event) : list string :=
  omap (fun ev => match ev with
                  | Execute c' operation _ None =>
                      if decide (c' = c) then Some operation else None
                  | _ => None
                  end) t.

(** The transaction of the source connection: the statements that wait for
    the next commit, and those a commit has made permanent.  A commit or a
    rollback that raises changes neither.  This is the reading most in favour
    of a rollback: a MySQL server commits DDL statements on its own. *)
Definition transaction_step (st : list string * list string) (ev : event)
    : list string * list string :=
  match ev with
  | Execute Source operation _ None => (st.1 ++ [operation], st.2)
  | Execute _ _ _ _ => st
  | Commit None => ([], st.2 ++ st.1)
  | Commit (Some _) => st
  | Rollback false => ([], st.2)
  | Rollback true => st
  end.


(** The session variable FOREIGN_KEY_CHECKS of the source connection, which
    is on when a session starts and which no commit or rollback restores. *)
Definition fk_checks_step (enabled : bool) (ev : event) : bool :=
  match ev with
  | Execute Source operation _ None =>
      if String.eqb operation SQL.fk_checks_off then false
      else if String.eqb operation SQL.fk_checks_on then true
      else enabled
  | _ => enabled
  end.

Definition fk_checks_enabled (t : list event) : bool :=
  foldl fk_checks_step true t.

(** Kinds of events. *)
Definition is_execute (ev : event) : Prop :=
  match ev with Execute _ _ _ _ => True | _ => False end.

(** An [execute] that leaves FOREIGN_KEY_CHECKS alone. *)
Definition is_plain_execute (ev : event) : Prop :=
  is_execute ev /\ forall enabled, fk_checks_step enabled ev = enabled.

(** Every event a computation records has property [P]. *)
Definition emits {A} (P : event -> Prop) (m : Run A) : Prop :=
  forall h, Forall P (m h).2.

(** A computation that never ends in an exception other than [Error], and
    one that never ends in [Error]. *)
Definition no_crash {A} (m : Run A) : Prop :=
  forall h, (m h).1 ≠ Crashed.

Definition no_raise {A} (m : Run A) : Prop :=
  forall h e, (m h).1 ≠ Raised e.

(** The statements of steps 3 and 4 of [handle_dosen_tables], in order. *)
Definition recreate_statements : list string :=
  [SQL.drop_dosen_wali_prodi; SQL.create_dosen_wali_prodi; SQL.fk_checks_off;
   SQL.add_ibfk_1; SQL.add_ibfk_2; SQL.fk_checks_on].

(** The ways steps 3 and 4 and the commit can go. *)
Inductive recreate_run : outcome unit -> list event -> Prop :=
| recreate_done :
    recreate_run (Returned tt) ((went_through <$> recreate_statements) ++ [Commit None])
| recreate_commit_raised e :
    recreate_run (Raised e) ((went_through <$> recreate_statements) ++ [Commit (Some e)])
| recreate_statement_raised done operation rest e :
    recreate_statements = done ++ operation :: rest ->
    recreate_run (Raised e)
      ((went_through <$> done) ++ [Execute Source operation [] (Some e)]).


(** The ways [handle_dosen_tables] can go: what it returns and what it did.
    [prep] is what steps 1 and 2 did. *)
Inductive handler_run : bool -> list event -> Prop :=
| handler_done prep :
    Forall is_plain_execute prep ->
    handler_run true (prep ++ (went_through <$> recreate_statements) ++ [Commit None])
| handler_index_raised prep rb :
    Forall is_plain_execute prep ->
    handler_run false (prep ++ [Rollback rb])
| handler_recreate_raised prep e t rb :
    Forall is_plain_execute prep ->
    recreate_run (Raised e) t ->
    handler_run false (prep ++ t ++ [Rollback rb]).

(** An event that leaves the transaction open: neither a commit that went
    through nor a rollback. *)
Definition is_pending (ev : event) : Prop :=
  match ev with
  | Execute _ _ _ _ => True
  | Commit (Some _) => True
  | Commit None => False
  | Rollback _ => False
  end.


(** ** Databases to run the code on *)

Module Scenario.

(** A server on which every call goes through: [dosen_wali_prodi] has no
    foreign key yet, [dosen] has no index [idx_dosen_nidn], the target's
    [orders] table has neither foreign keys nor an AUTO_INCREMENT value. *)
Definition all_ok : Server :=
  mkServer "siakad"
    (fun _ _ _ _ => None) (fun _ => None) (fun _ => false)
    (fun _ => []) (fun _ => 0%Z)
    (fun _ => "CREATE TABLE orders (id int) ENGINE=InnoDB")
    (fun _ => []) (fun _ => None).

(** The same server, except that the source refuses to create [orders]. *)
Definition create_fails : Server :=
  mkServer "siakad"
    (fun _ c operation _ =>
       if String.eqb operation "CREATE TABLE orders (id int) ENGINE=InnoDB"
       then Some "1118 (42000): Row size too large" else None)
    (fun _ => None) (fun _ => false)
    (fun _ => []) (fun _ => 0%Z)
    (fun _ => "CREATE TABLE orders (id int) ENGINE=InnoDB")
    (fun _ => []) (fun _ => None).



(** On the text of [orders] the two [re.sub] calls find nothing to remove. *)
Definition no_match (s : string) : string := s.

Definition nim : Column := mkColumn "nim" "varchar(15)" "NO" "PRI" None "".
Definition email : Column := mkColumn "email" "varchar(100)" "YES" "" None "".

(** Both databases have the one table [mahasiswa]; the target's has a
    column [email] that the source's lacks. *)
Definition extra_column : Catalog :=
  mkCatalog (fun _ => None)
    (fun _ => inr ["mahasiswa"])
    (fun c _ => match c with
                | Source => inr [nim]
                | Target => inr [nim; email]
                end).

(** The target server cannot be reached. *)
Definition unreachable : Catalog :=
  mkCatalog
    (fun c => match c with
              | Source => None
              | Target => Some "2003 (HY000): Can't connect to MySQL server"
              end)
    (fun _ => inr ["mahasiswa"])
    (fun c _ => match c with
                | Source => inr [nim]
                | Target => inr [nim; email]
                end).

(** The source lacks [dosen_wali_prodi] and [orders]; the tables the two
    databases share have the same columns. *)
Definition roster_missing : Catalog :=
  mkCatalog (fun _ => None)
    (fun c => match c with
              | Source => inr ["dosen"; "prodi"]
              | Target => inr ["dosen"; "prodi"; "dosen_wali_prodi"; "orders"]
              end)
    (fun _ _ => inr [nim]).

End Scenario.

(** ** Notions of the further properties *)

(** The two databases with their roles exchanged. *)
Definition swap_conn (c : conn) : conn :=
  match c with Source => Target | Target => Source end.

Definition swap_catalog (cat : Catalog) : Catalog :=
  mkCatalog (fun c => connect_error cat (swap_conn c))
            (fun c => show_tables cat (swap_conn c))
            (fun c table => show_columns cat (swap_conn c) table).

(** A call that is not made on the target connection. *)
Definition on_source (ev : event) : Prop :=
  match ev with
  | Execute c _ _ _ => c = Source
  | _ => True
  end.

(** A call that raised. *)
Definition has_raised (ev : event) : Prop :=
  match ev with
  | Execute _ _ _ (Some _) => True
  | Commit (Some _) => True
  | Rollback true => True
  | _ => False
  end.



(** The text of [fk_stmt] for one foreign key of the target, given the row
    of rules that [fetchone()] returned for it. *)
Definition foreign_key_statement (table col ref_table ref_col : string)
    (rules : option (string * string)) : string :=
  let '(delete_rule, update_rule) := default ("RESTRICT", "RESTRICT") rules in
  let stmt := SQL.add_constraint table col ref_table ref_col in
  let stmt := if negb (String.eqb delete_rule "RESTRICT")
              then stmt +:+ " ON DELETE " +:+ delete_rule else stmt in
  let stmt := if negb (String.eqb update_rule "RESTRICT")
              then stmt +:+ " ON UPDATE " +:+ update_rule else stmt in
  stmt.

(** The character [c] occurs in [s]. *)
Fixpoint occurs (c : ascii) (s : string) : Prop :=
  match s with
  | EmptyString => False
  | String c' s' => c' = c \/ occurs c s'
  end.

(** ** The comparator's connections and the entry point *)

(** The two attributes [source_conn] and [target_conn] of a comparator:
    [None] for Python's [None], [Some connected] for a connection object
    whose [is_connected()] answers [connected].  A connection that
    [mysql.connector.connect] returns is connected, and [close()] leaves it
    not connected. *)
Record Comparator : Type := mkComparator {
  source_conn : option bool;
  target_conn : option bool
}.

(** [__init__] *)
Definition new_comparator : Comparator := mkComparator None None.

(** [connect], with what it assigns: [self.source_conn] first, and
    [self.target_conn] only if the source connection was established. *)
Definition connect_comparator (cat : Catalog) (self : Comparator) : bool * Comparator :=
  match connect_error cat Source with
  | Some _ => (false, self)
  | None =>
      let self := mkComparator (Some true) (target_conn self) in
      match connect_error cat Target with
      | Some _ => (false, self)
      | None => (true, mkComparator (source_conn self) (Some true))
      end
  end.

(** [if c and c.is_connected(): c.close()] for one attribute: the attribute
    afterwards, and whether [close()] was called. *)
Definition close_if_connected (c : option bool) : option bool * bool :=
  match c with
  | Some true => (Some false, true)
  | other => (other, false)
  end.

(** [close_connections]: the comparator afterwards and the connections on
    which [close()] was called, in order. *)
Definition close_connections (self : Comparator) : Comparator * list conn :=
  let (source, source_closed) := close_if_connected (source_conn self) in
  let (target, target_closed) := close_if_connected (target_conn self) in
  (mkComparator source target,
   (if source_closed then [Source] else []) ++ (if target_closed then [Target] else [])).

(** A message that [main] itself logs. *)
Inductive log : Type :=
| Info (message : string)
| Error (message : string).

(** The messages of [main] about one of the three results: the heading,
    if the result is not empty, and a line per table. *)
Definition report (heading : string) (tables : list string) : list log :=
  match tables with
  | [] => []
  | _ => Info heading :: ((fun table => Info ("- " +:+ table)) <$> tables)
  end.

(** [main] once the configuration is imported.  [at_comparison] is what the
    databases answer to the comparison that [main] reports; [at_sync] and
    [srv] what they answer during the synchronisation, which compares again.
    [answer] is what the user types at the prompt.  The result is what [main]
    itself logs, in order, and the outcome and the calls of
    [sync_structures] if it was called.  An exception that leaves
    [sync_structures] leaves [main]. *)
Definition main (srv : Server) (strip_foreign_keys strip_auto_increment : string -> string)
    (at_comparison at_sync : Catalog) (answer : string)
    : list log * option (outcome bool * list event) :=
  let '(missing_in_source, missing_in_target, different_structures) :=
    compare_structures at_comparison in
  let logged :=
    report "Tables missing in source database:" missing_in_source
    ++ report "Tables missing in target database:" missing_in_target
    ++ report "Tables with different structures:" (map_to_list different_structures).*1 in
  if String.eqb (PyStr.lower answer) "y" then
    let run := sync_structures srv strip_foreign_keys strip_auto_increment at_sync in
    (logged ++ match run.1 with
               | Returned true => [Info "Synchronization completed successfully"]
               | Returned false => [Error "Synchronization failed"]
               | _ => []
               end,
     Some run)
  else (logged, None).

(** ** More servers to run the code on *)

Module Further.

(** Has an index been added in the calls so far? *)
Definition index_added (h : list event) : bool :=
  existsb (fun ev => match ev with
                     | Execute Source operation _ None =>
                         PyStr.contains "ADD INDEX" operation
                     | _ => false
                     end) h.

(** The source refuses every foreign key. *)
Definition foreign_key_refused : Server :=
  mkServer "siakad"
    (fun _ c operation _ =>
       if PyStr.contains "ADD CONSTRAINT" operation
       then Some "1215 (HY000): Cannot add foreign key constraint" else None)
    (fun _ => None) (fun _ => false)
    (fun _ => []) (fun _ => 0%Z)
    (fun _ => "CREATE TABLE orders (id int, customer_id int) ENGINE=InnoDB")
    (fun _ => [("customer_id", "customers", "id", "orders_ibfk_1")])
    (fun _ => Some ("CASCADE", "RESTRICT")).

(** The source refuses a foreign key as long as no index has been added. *)
Definition index_missing : Server :=
  mkServer "siakad"
    (fun h c operation _ =>
       if PyStr.contains "ADD CONSTRAINT" operation && negb (index_added h)
       then Some "1822 (HY000): Failed to add the foreign key constraint. Missing index for constraint"
       else None)
    (fun _ => None) (fun _ => false)
    (fun _ => []) (fun _ => 0%Z)
    (fun _ => "CREATE TABLE orders (id int, customer_id int) ENGINE=InnoDB")
    (fun _ => [("customer_id", "customers", "id", "orders_ibfk_1")])
    (fun _ => None).

(** The target raises on the query for the rules, with a text that speaks
    of a missing index. *)
Definition rules_query_fails : Server :=
  mkServer "siakad"
    (fun _ c operation _ =>
       if String.eqb operation SQL.select_rules
       then Some "1105 (HY000): Missing index statistics" else None)
    (fun _ => None) (fun _ => false)
    (fun _ => []) (fun _ => 0%Z)
    (fun _ => "CREATE TABLE orders (id int, customer_id int) ENGINE=InnoDB")
    (fun _ => [("customer_id", "customers", "id", "orders_ibfk_1")])
    (fun _ => None).

End Further.

(** * Properties *)

(** ** DDL synthesis *)

Lemma append_assoc (s1 s2 s3 : string) : (s1 +:+ s2) +:+ s3 = s1 +:+ (s2 +:+ s3).
Proof.
  induction s1 as [|c s1 IH]; [done|].
  change (String c ((s1 +:+ s2) +:+ s3) = String c (s1 +:+ (s2 +:+ s3))).
  by rewrite IH.
Qed.

(** The loop appends, in the order of the target columns, the statement of
    every column whose name the source does not have. *)
Lemma alter_loop_filter (table_name : string) (names : gset string)
    (target_cols : list Column) (acc : list string) :
  alter_loop table_name names target_cols acc =
  acc ++ (add_column_statement table_name <$> filter (λ col, Field col ∉ names) target_cols).
Proof.
  revert acc. induction target_cols as [|col rest IH]; intros acc; simpl.
  - by rewrite app_nil_r.
  - destruct (decide (Field col ∈ names)) as [Hin|Hout].
    + rewrite IH. rewrite filter_cons_False by (intros H; by apply H). done.
    + rewrite IH. rewrite filter_cons_True by done.
      rewrite fmap_cons. by rewrite <- app_assoc.
Qed.

Lemma elem_of_col_names (cols : list Column) (name : string) :
  name ∈ col_names cols ↔ name ∈ Field <$> cols.
Proof. unfold col_names. by rewrite elem_of_list_to_set. Qed.

Lemma generate_alter_statements_filter (table_name : string)
    (source_cols target_cols : list Column) :
  generate_alter_statements table_name source_cols target_cols =
  add_column_statement table_name
    <$> filter (λ col, Field col ∉ (Field <$> source_cols)) target_cols.
Proof.
  unfold generate_alter_statements. rewrite alter_loop_filter. simpl.
  f_equal. apply list_filter_iff. intros col. by rewrite elem_of_col_names.
Qed.

Lemma generated_statement_elem (table_name : string)
    (source_cols target_cols : list Column) (col : Column) :
  col ∈ target_cols ->
  Field col ∉ (Field <$> source_cols) ->
  add_column_statement table_name col
    ∈ generate_alter_statements table_name source_cols target_cols.
Proof.
  intros Hin Hout. rewrite generate_alter_statements_filter.
  apply list_elem_of_fmap. exists col. split; [done|].
  by apply list_elem_of_filter.
Qed.

Lemma add_column_statement_default (table_name : string) (col : Column) (d : string) :
  Default col = Some d ->
  add_column_statement table_name col =
  add_column_statement table_name (without_default col) +:+ default_clause (Type_ col) d.
Proof. intros Hd. unfold add_column_statement. rewrite Hd. reflexivity. Qed.

Lemma is_timestamp_type_test (ty : string) :
  is_timestamp_type ty <->
  String.eqb (PyStr.lower ty) "timestamp" || String.eqb (PyStr.lower ty) "datetime" = true.
Proof.
  unfold is_timestamp_type. rewrite orb_true_iff, !String.eqb_eq. reflexivity.
Qed.

Lemma is_character_type_test (ty : string) :
  is_character_type ty <->
  PyStr.contains "char" (PyStr.lower ty) || PyStr.contains "text" (PyStr.lower ty) = true.
Proof. unfold is_character_type. by rewrite orb_true_iff. Qed.

(** No type passes both the first and the second test. *)
Lemma character_type_not_timestamp (ty : string) :
  is_character_type ty -> ~ is_timestamp_type ty.
Proof.
  intros Hc [Ht|Ht]; unfold is_character_type in Hc; rewrite Ht in Hc;
    vm_compute in Hc; destruct Hc; discriminate.
Qed.


Lemma default_clause_character (ty d : string) :
  is_character_type ty -> default_clause ty d = " DEFAULT '" +:+ d +:+ "'".
Proof.
  intros Hc. unfold default_clause.
  destruct (String.eqb (PyStr.lower ty) "timestamp" || String.eqb (PyStr.lower ty) "datetime")
    eqn:Ht.
  - exfalso. apply (character_type_not_timestamp ty Hc).
    by apply is_timestamp_type_test.
  - simpl. apply is_character_type_test in Hc. by rewrite Hc.
Qed.




(** C6: [generate_alter_statements] only adds.  Its result is, in the order
    of the target columns, one ADD COLUMN statement for each target column
    whose [Field] is not the [Field] of a source column, and nothing else;
    so a column whose name is on both sides gets no statement.  For target
    columns a, b, c and source columns a, b the result is the one statement
    that adds c. *)
Theorem generate_alter_statements_additive (table_name : string)
    (source_cols target_cols : list Column) :
  generate_alter_statements table_name source_cols target_cols =
    (add_column_statement table_name
       <$> filter (λ col, Field col ∉ (Field <$> source_cols)) target_cols) /\
  length (generate_alter_statements table_name source_cols target_cols) =
    length (filter (λ col, Field col ∉ (Field <$> source_cols)) target_cols) /\
  (forall stmt, stmt ∈ generate_alter_statements table_name source_cols target_cols <->
     exists col, col ∈ target_cols /\ (Field col ∉ (Field <$> source_cols)) /\
                 stmt = add_column_statement table_name col) /\
  (forall a b c : Column, Field c <> Field a -> Field c <> Field b ->
     generate_alter_statements table_name [a; b] [a; b; c] =
       [add_column_statement table_name c]) /\
  generate_alter_statements "t"
    [mkColumn "a" "int" "NO" "PRI" None "auto_increment";
     mkColumn "b" "varchar(20)" "YES" "" None ""]
    [mkColumn "a" "int" "NO" "PRI" None "auto_increment";
     mkColumn "b" "varchar(20)" "YES" "" None "";
     mkColumn "c" "int" "YES" "" None ""] =
    ["ALTER TABLE t ADD COLUMN c int"].
Proof.
  split; [|split; [|split; [|split]]].
  - apply generate_alter_statements_filter.
  - rewrite generate_alter_statements_filter. apply length_fmap.
  - intros stmt. rewrite generate_alter_statements_filter, list_elem_of_fmap.
    split.
    + intros (col & -> & Hcol). apply list_elem_of_filter in Hcol as [Hout Hin].
      by exists col.
    + intros (col & Hin & Hout & ->). exists col. split; [done|].
      by apply list_elem_of_filter.
  - intros a b c Hca Hcb. rewrite generate_alter_statements_filter. simpl.
    rewrite filter_cons_False by (intros Hn; apply Hn; apply list_elem_of_here).
    rewrite filter_cons_False
      by (intros Hn; apply Hn; apply list_elem_of_further, list_elem_of_here).
    rewrite filter_cons_True.
    2:{ intros Hn. apply elem_of_cons in Hn as [Hn|Hn]; [done|].
        apply elem_of_cons in Hn as [Hn|Hn]; [done|].
        by apply not_elem_of_nil in Hn. }
    reflexivity.
  - vm_compute. reflexivity.
Qed.

(** C9: for an added target column whose type has [char] or [text] in it and
    whose default is not NULL, the statement is the statement without
    default followed by [ DEFAULT '], the default as it is, and ['].  A
    single quote inside the default is therefore in the statement as it is,
    with nothing put before or after it. *)
Theorem character_default_is_concatenated (table_name : string)
    (source_cols target_cols : list Column) (col : Column) (d : string) :
  col ∈ target_cols ->
  Field col ∉ (Field <$> source_cols) ->
  is_character_type (Type_ col) ->
  Default col = Some d ->
  let stmt := add_column_statement table_name col in
  let base := add_column_statement table_name (without_default col) in
  stmt ∈ generate_alter_statements table_name source_cols target_cols /\
  stmt = base +:+ " DEFAULT '" +:+ d +:+ "'" /\
  (forall before after : string, d = before +:+ "'" +:+ after ->
     stmt = base +:+ " DEFAULT '" +:+ before +:+ "'" +:+ after +:+ "'").
Proof.
  intros Hin Hout Hc Hd stmt base. subst stmt base.
  assert (Heq : add_column_statement table_name col =
                add_column_statement table_name (without_default col)
                  +:+ " DEFAULT '" +:+ d +:+ "'").
  { rewrite (add_column_statement_default table_name col d Hd).
    by rewrite default_clause_character. }
  split; [by apply generated_statement_elem|]. split; [done|].
  intros before after ->. rewrite Heq.
  do 2 f_equal. by rewrite !append_assoc.
Qed.

Lemma character_default_is_concatenated_witness :
  let col := mkColumn "nama" "varchar(50)" "YES" "" (Some "O'Brien") "" in
  add_column_statement "dosen_tamu" col
    = "ALTER TABLE dosen_tamu ADD COLUMN nama varchar(50) DEFAULT 'O'Brien'".
Proof.
  intros col.
  assert (Hin : col ∈ [col]) by (apply list_elem_of_here).
  assert (Hout : Field col ∉ Field <$> ([] : list Column))
    by (simpl; apply not_elem_of_nil).
  assert (Hc : is_character_type (Type_ col)) by (left; reflexivity).
  destruct (character_default_is_concatenated "dosen_tamu" [] [col] col "O'Brien"
              Hin Hout Hc eq_refl) as (_ & _ & Hq).
  rewrite (Hq "O" "Brien" eq_refl). reflexivity.
Defined.

(** ** The structural diff *)

Lemma compare_table_lookup (cat : Catalog)
    (acc : gmap string (list Column * list Column)) (table t : string) :
  compare_table cat acc table !! t =
  if decide (t = table /\
             get_table_structure cat Source t ≠ get_table_structure cat Target t)
  then Some (get_table_structure cat Source t, get_table_structure cat Target t)
  else acc !! t.
Proof.
  unfold compare_table.
  destruct (decide (get_table_structure cat Source table
                    ≠ get_table_structure cat Target table)) as [Hne|Heq].
  - destruct (decide (t = table)) as [->|Hnt].
    + rewrite lookup_insert_eq. by rewrite decide_True.
    + rewrite lookup_insert_ne by done. rewrite decide_False; [done|]. by intros [? _].
  - rewrite decide_False; [done|]. intros [-> Hne]. by apply Heq.
Qed.

(** After the loop, a table is in the dictionary exactly when the loop
    visited it and its two column lists differ; the entry is the two lists. *)
Lemma compare_loop_lookup (cat : Catalog) (tables : list string)
    (acc : gmap string (list Column * list Column)) (t : string) :
  foldl (compare_table cat) acc tables !! t =
  if decide (t ∈ tables /\
             get_table_structure cat Source t ≠ get_table_structure cat Target t)
  then Some (get_table_structure cat Source t, get_table_structure cat Target t)
  else acc !! t.
Proof.
  revert acc. induction tables as [|table rest IH]; intros acc; cbn [foldl].
  - rewrite decide_False; [done|]. intros [Hin _]. by apply not_elem_of_nil in Hin.
  - rewrite IH. rewrite compare_table_lookup.
    destruct (decide (t ∈ rest /\ _)) as [[Hin Hne]|Hno].
    + rewrite decide_True; [done|]. split; [by apply list_elem_of_further|done].
    + destruct (decide (t = table /\ _)) as [[-> Hne]|Hno'].
      * rewrite decide_True; [done|]. split; [apply list_elem_of_here|done].
      * rewrite decide_False; [done|]. intros [Hin Hne].
        apply elem_of_cons in Hin as [->|Hin]; [by apply Hno'|by apply Hno].
Qed.

Lemma compare_structures_connected (cat : Catalog) :
  connect cat = true ->
  compare_structures cat =
  (elements (list_to_set (get_tables cat Target) ∖ list_to_set (get_tables cat Source)
             : gset string),
   elements (list_to_set (get_tables cat Source) ∖ list_to_set (get_tables cat Target)
             : gset string),
   foldl (compare_table cat) ∅
     (elements (list_to_set (get_tables cat Source) ∩ list_to_set (get_tables cat Target)
                : gset string))).
Proof. intros Hc. unfold compare_structures. by rewrite Hc. Qed.

Lemma compare_structures_not_connected (cat : Catalog) :
  connect cat = false -> compare_structures cat = ([], [], ∅).
Proof. intros Hc. unfold compare_structures. by rewrite Hc. Qed.

(** C7: with S the set of the source's table names and T the set of the
    target's, [compare_structures] returns as [missing_in_source] the
    elements of T − S and as [missing_in_target] the elements of S − T, each
    once, and neither has an element in the common set S ∩ T, the set the
    column comparison runs over and every key of the dictionary comes from. *)
Theorem compare_structures_table_sets (cat : Catalog)
    (missing_in_source missing_in_target : list string)
    (different_structures : gmap string (list Column * list Column)) :
  connect cat = true ->
  compare_structures cat = (missing_in_source, missing_in_target, different_structures) ->
  let S : gset string := list_to_set (get_tables cat Source) in
  let T : gset string := list_to_set (get_tables cat Target) in
  list_to_set missing_in_source = T ∖ S /\
  list_to_set missing_in_target = S ∖ T /\
  NoDup missing_in_source /\
  NoDup missing_in_target /\
  (forall table, table ∈ missing_in_source -> table ∉ S ∩ T) /\
  (forall table, table ∈ missing_in_target -> table ∉ S ∩ T) /\
  dom different_structures ⊆ S ∩ T.
Proof.
  intros Hc Hcmp S T. rewrite (compare_structures_connected cat Hc) in Hcmp.
  injection Hcmp as <- <- <-. fold S T.
  repeat split.
  - apply list_to_set_elements_L.
  - apply list_to_set_elements_L.
  - apply NoDup_elements.
  - apply NoDup_elements.
  - intros table Hin Hcommon.
    apply elem_of_elements, elem_of_difference in Hin as [_ Hout].
    apply elem_of_intersection in Hcommon as [Hsrc _]. by apply Hout.
  - intros table Hin Hcommon.
    apply elem_of_elements, elem_of_difference in Hin as [_ Hout].
    apply elem_of_intersection in Hcommon as [_ Htgt]. by apply Hout.
  - intros table Hin. apply elem_of_dom in Hin as [v Hv].
    rewrite compare_loop_lookup in Hv.
    destruct (decide _) as [[Hin _]|_]; [|by rewrite lookup_empty in Hv].
    by apply elem_of_elements in Hin.
Qed.

Lemma compare_structures_table_sets_witness :
  let cat := mkCatalog (fun _ => None)
               (fun c => match c with
                         | Source => inr ["mahasiswa"; "dosen"]
                         | Target => inr ["dosen"; "prodi"]
                         end)
               (fun _ _ => inr []) in
  list_to_set (compare_structures cat).1.1 =@{gset string}
    list_to_set ["dosen"; "prodi"] ∖ list_to_set ["mahasiswa"; "dosen"] /\
  (compare_structures cat).1.1 = ["prodi"].
Proof.
  intros cat.
  destruct (compare_structures cat) as [[ms mt] ds] eqn:Hcmp.
  destruct (compare_structures_table_sets cat ms mt ds eq_refl Hcmp) as (Hms & _).
  split; [exact Hms|].
  vm_compute in Hcmp. by injection Hcmp as <- _ _.
Defined.

(** C8: a table of both databases is a key of the dictionary that
    [compare_structures] returns exactly when its two column lists, as
    [get_table_structure] returns them, are different lists; then the entry
    is these two lists.  Lists that are equal never enter; lists that are
    not equal, whatever the field or the position that tells them apart,
    always do. *)
Theorem different_structures_iff_unequal (cat : Catalog)
    (missing_in_source missing_in_target : list string)
    (different_structures : gmap string (list Column * list Column))
    (table : string) :
  connect cat = true ->
  compare_structures cat = (missing_in_source, missing_in_target, different_structures) ->
  table ∈ get_tables cat Source ->
  table ∈ get_tables cat Target ->
  let source_structure := get_table_structure cat Source table in
  let target_structure := get_table_structure cat Target table in
  (source_structure = target_structure -> different_structures !! table = None) /\
  (source_structure ≠ target_structure ->
     different_structures !! table = Some (source_structure, target_structure)) /\
  (table ∈ dom different_structures <-> source_structure ≠ target_structure).
Proof.
  intros Hc Hcmp HS HT src tgt. rewrite (compare_structures_connected cat Hc) in Hcmp.
  injection Hcmp as _ _ <-.
  assert (Hcommon : table ∈ elements
                      (list_to_set (get_tables cat Source)
                         ∩ list_to_set (get_tables cat Target) : gset string)).
  { apply elem_of_elements, elem_of_intersection.
    split; by apply elem_of_list_to_set. }
  assert (Heq : src = tgt ->
                foldl (compare_table cat) ∅ (elements
                  (list_to_set (get_tables cat Source)
                     ∩ list_to_set (get_tables cat Target) : gset string)) !! table = None).
  { intros Heq. rewrite compare_loop_lookup. rewrite decide_False.
    - apply lookup_empty.
    - intros [_ Hne]. by apply Hne. }
  assert (Hne : src ≠ tgt ->
                foldl (compare_table cat) ∅ (elements
                  (list_to_set (get_tables cat Source)
                     ∩ list_to_set (get_tables cat Target) : gset string)) !! table
                = Some (src, tgt)).
  { intros Hne. rewrite compare_loop_lookup. by rewrite decide_True. }
  split; [done|]. split; [done|].
  rewrite elem_of_dom. split.
  - intros [v Hv] Hsame. rewrite (Heq Hsame) in Hv. discriminate.
  - intros Hdiff. rewrite (Hne Hdiff). by eexists.
Qed.

Lemma different_structures_iff_unequal_witness :
  let narrow := mkColumn "nidn" "varchar(10)" "YES" "" None "" in
  let wide := mkColumn "nidn" "varchar(20)" "YES" "" None "" in
  let cat := mkCatalog (fun _ => None) (fun _ => inr ["dosen_tamu"])
               (fun c _ => match c with
                           | Source => inr [narrow]
                           | Target => inr [wide]
                           end) in
  (compare_structures cat).2 !! "dosen_tamu" = Some ([narrow], [wide]).
Proof.
  intros narrow wide cat.
  destruct (compare_structures cat) as [[ms mt] ds] eqn:Hcmp.
  assert (Hin : "dosen_tamu" ∈ ["dosen_tamu"]) by apply list_elem_of_here.
  destruct (different_structures_iff_unequal cat ms mt ds "dosen_tamu" eq_refl Hcmp Hin Hin)
    as (_ & Hne & _).
  simpl. apply Hne. intros Heq. discriminate Heq.
Defined.

(** ** Running code: the laws used below *)

Lemma run_bind {A B} (m : Run A) (k : A -> Run B) (h : list event) :
  (m ≫= k) h =
  match m h with
  | (Returned a, t) => let (r, t') := k a (h ++ t) in (r, t ++ t')
  | (Raised e, t) => (Raised e, t)
  | (Crashed, t) => (Crashed, t)
  end.
Proof. reflexivity. Qed.

Lemma run_try {A} (m : Run A) (handler : string -> Run A) (h : list event) :
  try_except m handler h =
  match m h with
  | (Raised e, t) => let (r, t') := handler e (h ++ t) in (r, t ++ t')
  | other => other
  end.
Proof. reflexivity. Qed.

Lemma run_execute_bind {B} (srv : Server) (c : conn) (operation : string)
    (params : list string) (k : unit -> Run B) (h : list event) :
  (execute srv c operation params ≫= k) h =
  match execute_error srv h c operation params with
  | Some e => (Raised e, [Execute c operation params (Some e)])
  | None =>
      let (r, t) := k tt (h ++ [Execute c operation params None]) in
      (r, Execute c operation params None :: t)
  end.
Proof.
  rewrite run_bind. unfold execute.
  by destruct (execute_error srv h c operation params).
Qed.

(** Name what the rest of a sequence does. *)
Ltac run_rest r t H :=
  match goal with
  | |- (let (_, _) := ?x in _) = _ -> _ => destruct x as [r t] eqn:H
  end.

Lemma emits_ret {A} (P : event -> Prop) (a : A) : emits P (mret a : Run A).
Proof. intros h. apply Forall_nil_2. Qed.

Lemma emits_raise {A} (P : event -> Prop) (e : string) : emits P (raise e : Run A).
Proof. intros h. apply Forall_nil_2. Qed.


Lemma emits_fetch {A} (P : event -> Prop) (srv : Server)
    (rows : Server -> list event -> A) : emits P (fetch srv rows).
Proof. intros h. apply Forall_nil_2. Qed.

Lemma emits_bind {A B} (P : event -> Prop) (m : Run A) (k : A -> Run B) :
  emits P m -> (forall a, emits P (k a)) -> emits P (m ≫= k).
Proof.
  intros Hm Hk h. rewrite run_bind. specialize (Hm h).
  destruct (m h) as [[a|e|] t]; simpl in *; [|done|done].
  specialize (Hk a (h ++ t)). destruct (k a (h ++ t)) as [r t']; simpl in *.
  by apply Forall_app.
Qed.

Lemma emits_try {A} (P : event -> Prop) (m : Run A) (handler : string -> Run A) :
  emits P m -> (forall e, emits P (handler e)) -> emits P (try_except m handler).
Proof.
  intros Hm Hh h. rewrite run_try. specialize (Hm h).
  destruct (m h) as [[a|e|] t]; simpl in *; [done| |done].
  specialize (Hh e (h ++ t)). destruct (handler e (h ++ t)) as [r t']; simpl in *.
  by apply Forall_app.
Qed.

Lemma emits_for_in {A S} (P : event -> Prop) (l : list A) (body : S -> A -> Run S) (s : S) :
  (forall s x, emits P (body s x)) -> emits P (for_in l body s).
Proof.
  intros Hbody. revert s. induction l as [|x l IH]; intros s; simpl.
  - apply emits_ret.
  - apply emits_bind; [apply Hbody|]. intros s'. apply IH.
Qed.

Lemma emits_execute (P : event -> Prop) (srv : Server) (c : conn)
    (operation : string) (params : list string) :
  (forall error, P (Execute c operation params error)) ->
  emits P (execute srv c operation params).
Proof. intros HP h. unfold execute. simpl. apply Forall_singleton, HP. Qed.

Lemma no_crash_ret {A} (a : A) : no_crash (mret a : Run A).
Proof. by intros h. Qed.

Lemma no_crash_raise {A} (e : string) : no_crash (raise e : Run A).
Proof. by intros h. Qed.

Lemma no_crash_fetch {A} (srv : Server) (rows : Server -> list event -> A) :
  no_crash (fetch srv rows).
Proof. by intros h. Qed.

Lemma no_crash_execute (srv : Server) (c : conn) (operation : string)
    (params : list string) : no_crash (execute srv c operation params).
Proof. intros h. unfold execute. simpl. by destruct (execute_error _ _ _ _ _). Qed.

Lemma no_crash_commit (srv : Server) : no_crash (commit srv).
Proof. intros h. unfold commit. simpl. by destruct (commit_error _ _). Qed.

Lemma no_crash_rollback (srv : Server) : no_crash (rollback_quietly srv).
Proof. by intros h. Qed.

Lemma no_crash_bind {A B} (m : Run A) (k : A -> Run B) :
  no_crash m -> (forall a, no_crash (k a)) -> no_crash (m ≫= k).
Proof.
  intros Hm Hk h. rewrite run_bind. specialize (Hm h).
  destruct (m h) as [[a|e|] t]; simpl in *; [|done|done].
  specialize (Hk a (h ++ t)). by destruct (k a (h ++ t)) as [r t'].
Qed.

Lemma no_crash_try {A} (m : Run A) (handler : string -> Run A) :
  no_crash m -> (forall e, no_crash (handler e)) -> no_crash (try_except m handler).
Proof.
  intros Hm Hh h. rewrite run_try. specialize (Hm h).
  destruct (m h) as [[a|e|] t]; simpl in *; [done| |done].
  specialize (Hh e (h ++ t)). by destruct (handler e (h ++ t)) as [r t'].
Qed.

Lemma no_crash_for_in {A S} (l : list A) (body : S -> A -> Run S) (s : S) :
  (forall s x, no_crash (body s x)) -> no_crash (for_in l body s).
Proof.
  intros Hbody. revert s. induction l as [|x l IH]; intros s; simpl.
  - apply no_crash_ret.
  - apply no_crash_bind; [apply Hbody|]. intros s'. apply IH.
Qed.

Lemma no_raise_ret {A} (a : A) : no_raise (mret a : Run A).
Proof. by intros h e. Qed.

Lemma no_raise_rollback (srv : Server) : no_raise (rollback_quietly srv).
Proof. by intros h e. Qed.

Lemma no_raise_bind {A B} (m : Run A) (k : A -> Run B) :
  no_raise m -> (forall a, no_raise (k a)) -> no_raise (m ≫= k).
Proof.
  intros Hm Hk h e. rewrite run_bind. specialize (Hm h).
  destruct (m h) as [[a|e'|] t]; simpl in *; [| |done].
  - specialize (Hk a (h ++ t) e). by destruct (k a (h ++ t)) as [r t'].
  - by destruct (Hm e').
Qed.

Lemma no_raise_try {A} (m : Run A) (handler : string -> Run A) :
  (forall e, no_raise (handler e)) -> no_raise (try_except m handler).
Proof.
  intros Hh h e. rewrite run_try.
  destruct (m h) as [[a|e'|] t]; simpl in *; [done| |done].
  specialize (Hh e' (h ++ t) e). by destruct (handler e' (h ++ t)) as [r t'].
Qed.

(** A computation that neither raises nor crashes returns. *)
Lemma returns {A} (m : Run A) (h : list event) :
  no_crash m -> no_raise m -> exists a t, m h = (Returned a, t).
Proof.
  intros Hc Hr. specialize (Hc h). specialize (Hr h).
  destruct (m h) as [[a|e|] t]; simpl in *.
  - by exists a, t.
  - by destruct (Hr e).
  - done.
Qed.

(** ** The handler of the special tables *)

Section Handler.

Variable srv : Server.

Lemma plain_execute (operation : string) (error : option string) :
  String.eqb operation SQL.fk_checks_off = false ->
  String.eqb operation SQL.fk_checks_on = false ->
  is_plain_execute (Execute Source operation [] error).
Proof.
  intros Hoff Hon. split; [done|]. intros enabled. simpl.
  destruct error; [done|]. by rewrite Hoff, Hon.
Qed.

Lemma drop_constraints_emits : emits is_plain_execute (drop_constraints srv).
Proof.
  unfold drop_constraints. apply emits_try; [|intros; apply emits_ret].
  apply emits_bind.
  - apply emits_execute. intros error. by apply plain_execute.
  - intros _. apply emits_bind; [apply emits_fetch|]. intros constraints.
    apply emits_for_in. intros _ name. apply emits_execute.
    intros error. by apply plain_execute.
Qed.

Lemma drop_constraints_no_crash : no_crash (drop_constraints srv).
Proof.
  unfold drop_constraints. apply no_crash_try; [|intros; apply no_crash_ret].
  apply no_crash_bind; [apply no_crash_execute|]. intros _.
  apply no_crash_bind; [apply no_crash_fetch|]. intros constraints.
  apply no_crash_for_in. intros _ name. apply no_crash_execute.
Qed.

Lemma drop_constraints_returns (h : list event) :
  exists t, drop_constraints srv h = (Returned tt, t).
Proof.
  destruct (returns (drop_constraints srv) h) as ([] & t & Hrun).
  - apply drop_constraints_no_crash.
  - unfold drop_constraints. apply no_raise_try. intros e. apply no_raise_ret.
  - by exists t.
Qed.

Lemma fix_dosen_index_emits : emits is_plain_execute (fix_dosen_index srv).
Proof.
  unfold fix_dosen_index. apply emits_try.
  - apply emits_bind.
    + apply emits_execute. intros error. by apply plain_execute.
    + intros _. apply emits_bind; [apply emits_fetch|]. intros count.
      destruct (negb _); [|apply emits_ret].
      apply emits_execute. intros error. by apply plain_execute.
  - intros e. destruct (negb _); [apply emits_raise|apply emits_ret].
Qed.

Lemma fix_dosen_index_no_crash : no_crash (fix_dosen_index srv).
Proof.
  unfold fix_dosen_index. apply no_crash_try.
  - apply no_crash_bind; [apply no_crash_execute|]. intros _.
    apply no_crash_bind; [apply no_crash_fetch|]. intros count.
    destruct (negb _); [apply no_crash_execute|apply no_crash_ret].
  - intros e. destruct (negb _); [apply no_crash_raise|apply no_crash_ret].
Qed.

(** Steps 3 and 4 and the commit go one of the ways of [recreate_run]. *)
Lemma recreate_runs (h : list event) (r : outcome unit) (t : list event) :
  recreate_dosen_wali_prodi srv h = (r, t) -> recreate_run r t.
Proof.
  unfold recreate_dosen_wali_prodi.
  rewrite run_execute_bind.
  destruct (execute_error srv h Source SQL.drop_dosen_wali_prodi []) as [e|].
  { intros [= <- <-]. apply (recreate_statement_raised [] _ _ e eq_refl). }
  run_rest r1 t1 Hrun. intros [= <- <-].
  revert Hrun. rewrite run_execute_bind.
  destruct (execute_error srv _ Source SQL.create_dosen_wali_prodi []) as [e|].
  { intros [= <- <-]. apply (recreate_statement_raised [_] _ _ e eq_refl). }
  run_rest r2 t2 Hrun. intros [= <- <-].
  revert Hrun. rewrite run_execute_bind.
  destruct (execute_error srv _ Source SQL.fk_checks_off []) as [e|].
  { intros [= <- <-]. apply (recreate_statement_raised [_; _] _ _ e eq_refl). }
  run_rest r3 t3 Hrun. intros [= <- <-].
  revert Hrun. rewrite run_execute_bind.
  destruct (execute_error srv _ Source SQL.add_ibfk_1 []) as [e|].
  { intros [= <- <-]. apply (recreate_statement_raised [_; _; _] _ _ e eq_refl). }
  run_rest r4 t4 Hrun. intros [= <- <-].
  revert Hrun. rewrite run_execute_bind.
  destruct (execute_error srv _ Source SQL.add_ibfk_2 []) as [e|].
  { intros [= <- <-]. apply (recreate_statement_raised [_; _; _; _] _ _ e eq_refl). }
  run_rest r5 t5 Hrun. intros [= <- <-].
  revert Hrun. rewrite run_execute_bind.
  destruct (execute_error srv _ Source SQL.fk_checks_on []) as [e|].
  { intros [= <- <-]. apply (recreate_statement_raised [_; _; _; _; _] _ _ e eq_refl). }
  run_rest r6 t6 Hrun. intros [= <- <-].
  revert Hrun. unfold commit.
  destruct (commit_error srv _) as [e|]; intros [= <- <-].
  - apply recreate_commit_raised.
  - apply recreate_done.
Qed.


End Handler.

Section HandlerRuns.

Variable srv : Server.

(** [handle_dosen_tables] always returns, and goes one of the ways of
    [handler_run]. *)
Lemma handle_dosen_tables_runs (h : list event) :
  exists handled t,
    handle_dosen_tables srv h = (Returned handled, t) /\ handler_run handled t.
Proof.
  unfold handle_dosen_tables. rewrite run_try, run_bind.
  destruct (drop_constraints_returns srv h) as [t1 H1].
  assert (P1 := drop_constraints_emits srv h). rewrite H1 in *. simpl in P1.
  rewrite run_bind.
  assert (P2 := fix_dosen_index_emits srv (h ++ t1)).
  assert (C2 := fix_dosen_index_no_crash srv (h ++ t1)).
  destruct (fix_dosen_index srv (h ++ t1)) as [[[]|e|] t2]; simpl in P2, C2; [| |done].
  - rewrite run_bind.
    destruct (recreate_dosen_wali_prodi srv ((h ++ t1) ++ t2)) as [r3 t3] eqn:H3.
    apply recreate_runs in H3.
    destruct H3 as [|e|done operation rest e Hsplit]; simpl.
    + exists true, (t1 ++ t2 ++ ((went_through <$> recreate_statements) ++ [Commit None] ) ++ []).
      split; [done|]. rewrite app_nil_r, app_assoc.
      apply handler_done. by apply Forall_app.
    + eexists false, _. split; [done|].
      rewrite (app_assoc t1 t2), <- (app_assoc (t1 ++ t2)).
      apply handler_recreate_raised with (e := e); [by apply Forall_app|].
      apply recreate_commit_raised.
    + eexists false, _. split; [done|].
      rewrite (app_assoc t1 t2), <- (app_assoc (t1 ++ t2)).
      apply handler_recreate_raised with (e := e); [by apply Forall_app|].
      by apply recreate_statement_raised with (rest := rest).
  - eexists false, _. split; [done|].
    rewrite app_nil_r, app_assoc. apply handler_index_raised. by apply Forall_app.
Qed.

End HandlerRuns.

(** ** The part of [sync_structures] after the handler *)

Section Generic.

Variable srv : Server.
Variable strip_foreign_keys : string -> string.
Variable strip_auto_increment : string -> string.






(** *** The three ways through [synchronise] *)




End Generic.

(** ** Reading a trace *)

Lemma plain_is_execute (t : list event) :
  Forall is_plain_execute t -> Forall is_execute t.
Proof. intros Ht. eapply Forall_impl; [exact Ht|]. by intros ev [? _]. Qed.

Lemma went_through_is_execute (operations : list string) :
  Forall is_execute (went_through <$> operations).
Proof. apply Forall_fmap, Forall_true. by intros op. Qed.

Lemma execute_is_pending (t : list event) :
  Forall is_execute t -> Forall is_pending t.
Proof. intros Ht. eapply Forall_impl; [exact Ht|]. by intros []. Qed.








Lemma fk_checks_plain (t : list event) (enabled : bool) :
  Forall is_plain_execute t -> foldl fk_checks_step enabled t = enabled.
Proof.
  revert enabled. induction t as [|ev t IH]; intros enabled Ht; [done|].
  apply Forall_cons in Ht as [[_ Hev] Ht]. simpl. rewrite Hev. by apply IH.
Qed.

(** When steps 3 and 4 raise, nothing has been committed; and
    FOREIGN_KEY_CHECKS is left off unless it is the commit that raised. *)
Lemma recreate_raised_pending (e : string) (t : list event) :
  recreate_run (Raised e) t -> Forall is_pending t.
Proof.
  inversion 1 as [|e' Heq|done operation rest e' Hsplit]; subst.
  - apply Forall_app. split; [|by repeat constructor].
    apply execute_is_pending, went_through_is_execute.
  - apply Forall_app. split; [|by repeat constructor].
    apply execute_is_pending, went_through_is_execute.
Qed.

Lemma recreate_raised_fk_checks (e : string) (t : list event) :
  recreate_run (Raised e) t ->
  foldl fk_checks_step false t = false \/
  t = (went_through <$> recreate_statements) ++ [Commit (Some e)].
Proof.
  inversion 1 as [|e' Heq|done operation rest e' Hsplit]; subst.
  - by right.
  - left. unfold recreate_statements in Hsplit.
    do 6 (destruct done as [|? done]; [by simplify_eq/=|]; simplify_eq/=).
    by destruct done.
Qed.

(** ** [sync_structures] *)

Section SyncStructures.

Variable srv : Server.
Variable strip_foreign_keys : string -> string.
Variable strip_auto_increment : string -> string.
Variable cat : Catalog.



Lemma handler_false_run (th : list event) :
  handler_run false th ->
  (exists t0 rb, th = t0 ++ [Rollback rb] /\ Forall is_pending t0) /\
  (foldl fk_checks_step false th = false \/
   exists prep e rb,
     th = prep ++ (went_through <$> recreate_statements) ++ [Commit (Some e); Rollback rb] /\
     foldl fk_checks_step false th = true).
Proof.
  inversion 1 as [|prep rb Hprep|prep e t rb Hprep Ht]; subst.
  - split.
    + exists prep, rb. split; [done|]. by apply execute_is_pending, plain_is_execute.
    + left. rewrite foldl_app. rewrite (fk_checks_plain prep) by done. reflexivity.
  - split.
    + exists (prep ++ t), rb. split; [by rewrite app_assoc|].
      apply Forall_app. split.
      * by apply execute_is_pending, plain_is_execute.
      * by apply recreate_raised_pending with (e := e).
    + destruct (recreate_raised_fk_checks e t Ht) as [Hoff|Hcommit]; [|subst t].
      * left. rewrite !foldl_app. rewrite (fk_checks_plain prep) by done.
        rewrite Hoff. reflexivity.
      * right. exists prep, e, rb. split; [by rewrite <- app_assoc|].
        rewrite !foldl_app. rewrite (fk_checks_plain prep) by done. reflexivity.
Qed.



End SyncStructures.





Lemma handler_true_run (th : list event) :
  handler_run true th ->
  exists prep, Forall is_plain_execute prep /\
    th = prep ++ (went_through <$> recreate_statements) ++ [Commit None].
Proof. inversion 1 as [prep Hprep| |]. by exists prep. Qed.






(** C2, as the code has it: when either connection cannot be established,
    [connect] returns [False], [compare_structures] returns three empty
    results, and [sync_structures] makes no call on either connection, so
    executes no DDL, and returns [True], as it does for an empty diff. *)
Theorem connection_failure_is_empty_diff (srv : Server)
    (strip_foreign_keys strip_auto_increment : string -> string) (cat : Catalog)
    (c : conn) (e : string) :
  connect_error cat c = Some e ->
  connect cat = false /\
  compare_structures cat = ([], [], ∅) /\
  sync_structures srv strip_foreign_keys strip_auto_increment cat = (Returned true, []).
Proof.
  intros Herr.
  assert (Hc : connect cat = false).
  { unfold connect. destruct c; rewrite ?Herr; [done|].
    by destruct (connect_error cat Source). }
  split; [done|]. split; [by apply compare_structures_not_connected|].
  unfold sync_structures. rewrite compare_structures_not_connected by done.
  reflexivity.
Qed.

Lemma connection_failure_is_empty_diff_witness :
  sync_structures Scenario.all_ok Scenario.no_match Scenario.no_match
    Scenario.unreachable = (Returned true, []).
Proof.
  apply (connection_failure_is_empty_diff Scenario.all_ok Scenario.no_match
           Scenario.no_match Scenario.unreachable Target
           "2003 (HY000): Can't connect to MySQL server" eq_refl).
Defined.

(** C2, as stated, fails: the target cannot be reached, [connect] returns
    [False], and [sync_structures] returns [True]. *)
Lemma connection_failure_reports_success :
  connect Scenario.unreachable = false /\
  (sync_structures Scenario.all_ok Scenario.no_match Scenario.no_match
     Scenario.unreachable).1 = Returned true.
Proof. split; vm_compute; reflexivity. Qed.

(** C1 does not hold of the code: [mahasiswa] is in both databases and the
    target's has one more column, [email].  [compare_structures] reports the
    table as different and [generate_alter_statements] yields the statement
    that adds [email]; [sync_structures] returns [True] having executed the
    two statements on FOREIGN_KEY_CHECKS and a commit, and no ALTER TABLE.
    The loop of the unreachable copies would have executed the statement. *)
Theorem alter_statements_are_not_executed :
  let run := sync_structures Scenario.all_ok Scenario.no_match Scenario.no_match
               Scenario.extra_column in
  let different_structures := (compare_structures Scenario.extra_column).2 in
  let stmt := "ALTER TABLE mahasiswa ADD COLUMN email varchar(100)" in
  different_structures !! "mahasiswa"
    = Some ([Scenario.nim], [Scenario.nim; Scenario.email]) /\
  generate_alter_statements "mahasiswa" [Scenario.nim] [Scenario.nim; Scenario.email]
    = [stmt] /\
  run = (Returned true, [off_ok; went_through SQL.fk_checks_on; Commit None]) /\
  (stmt ∉ executed Source run.2) /\
  alter_different_structures Scenario.all_ok different_structures [off_ok]
    = (Returned tt, [went_through stmt]).
Proof.
  intros run different_structures stmt.
  split; [vm_compute; reflexivity|].
  split; [vm_compute; reflexivity|].
  split; [vm_compute; reflexivity|].
  split; [|vm_compute; reflexivity].
  intros Hin. vm_compute in Hin.
  apply elem_of_cons in Hin as [Hin|Hin]; [discriminate|].
  apply elem_of_cons in Hin as [Hin|Hin]; [discriminate|].
  by apply not_elem_of_nil in Hin.
Qed.

(** * Further properties *)

(** ** DDL synthesis *)

Lemma generate_nothing_iff (table_name : string)
    (source_cols target_cols : list Column) :
  generate_alter_statements table_name source_cols target_cols = [] <->
  (forall col, col ∈ target_cols -> Field col ∈ Field <$> source_cols).
Proof.
  rewrite generate_alter_statements_filter. split.
  - intros Hnil col Hin.
    destruct (decide (Field col ∈ Field <$> source_cols)) as [Hyes|Hno]; [done|].
    apply fmap_nil_inv in Hnil.
    assert (Hcol : col ∈ filter (λ col, Field col ∉ (Field <$> source_cols)) target_cols)
      by (by apply list_elem_of_filter).
    rewrite Hnil in Hcol. by apply not_elem_of_nil in Hcol.
  - intros Hall. induction target_cols as [|col rest IH]; [done|].
    rewrite filter_cons_False.
    + apply IH. intros col' Hin. apply Hall. by apply list_elem_of_further.
    + intros Hno. apply Hno, Hall. apply list_elem_of_here.
Qed.

(** X1: [generate_alter_statements] yields no statement exactly when every
    target column has the name of a source column.  Columns that differ in
    type, nullability, default or position only never give a statement. *)
Theorem no_statement_iff_names_covered (table_name : string)
    (source_cols target_cols : list Column) :
  generate_alter_statements table_name source_cols target_cols = [] <->
  (forall col, col ∈ target_cols -> Field col ∈ Field <$> source_cols).
Proof. apply generate_nothing_iff. Qed.

(** X2: once the columns that [generate_alter_statements] adds are in the
    source, after its own columns, the function has nothing more to add,
    although the two column lists may still differ. *)
Theorem additions_leave_nothing_to_add (table_name : string)
    (source_cols target_cols : list Column) :
  generate_alter_statements table_name
    (source_cols ++ filter (λ col, Field col ∉ (Field <$> source_cols)) target_cols)
    target_cols = [].
Proof.
  apply generate_nothing_iff. intros col Hin.
  rewrite fmap_app, elem_of_app.
  destruct (decide (Field col ∈ Field <$> source_cols)) as [Hyes|Hno]; [by left|].
  right. apply list_elem_of_fmap. exists col. split; [done|].
  by apply list_elem_of_filter.
Qed.

(** X3: of the source columns only the set of their names matters: two
    source lists with the same names, whatever their types, order and
    repetitions, give the same statements. *)
Theorem only_source_names_matter (table_name : string)
    (source_cols source_cols' target_cols : list Column) :
  (forall name, name ∈ Field <$> source_cols <-> name ∈ Field <$> source_cols') ->
  generate_alter_statements table_name source_cols target_cols =
  generate_alter_statements table_name source_cols' target_cols.
Proof.
  intros Hnames. rewrite !generate_alter_statements_filter. f_equal.
  apply list_filter_iff. intros col. by rewrite Hnames.
Qed.

Lemma only_source_names_matter_witness :
  generate_alter_statements "mahasiswa"
    [mkColumn "nim" "varchar(15)" "NO" "PRI" None ""]
    [Scenario.nim; Scenario.email] =
  generate_alter_statements "mahasiswa"
    [mkColumn "nim" "int" "YES" "" (Some "0") ""; Scenario.nim]
    [Scenario.nim; Scenario.email].
Proof.
  apply only_source_names_matter. intros name. simpl.
  rewrite !elem_of_cons. split; intros H; tauto.
Defined.

(** X4: the statements follow the target columns: the statements of two
    lists of target columns put end to end are the statements of the first
    followed by those of the second. *)
Theorem statements_follow_target_columns (table_name : string)
    (source_cols target_cols1 target_cols2 : list Column) :
  generate_alter_statements table_name source_cols (target_cols1 ++ target_cols2) =
  generate_alter_statements table_name source_cols target_cols1
    ++ generate_alter_statements table_name source_cols target_cols2.
Proof.
  rewrite !generate_alter_statements_filter. by rewrite filter_app, fmap_app.
Qed.

(** ** The structural diff *)

Lemma connect_swap (cat : Catalog) : connect (swap_catalog cat) = connect cat.
Proof.
  unfold connect, swap_catalog. simpl.
  by destruct (connect_error cat Source), (connect_error cat Target).
Qed.

Lemma get_tables_swap (cat : Catalog) (c : conn) :
  get_tables (swap_catalog cat) c = get_tables cat (swap_conn c).
Proof. reflexivity. Qed.

Lemma get_table_structure_swap (cat : Catalog) (c : conn) (table : string) :
  get_table_structure (swap_catalog cat) c table
  = get_table_structure cat (swap_conn c) table.
Proof. reflexivity. Qed.

(** X5: exchanging the two databases exchanges the two lists of missing
    tables and leaves the tables reported as different the same, each with
    its two column lists exchanged. *)
Theorem compare_structures_swap (cat : Catalog) :
  compare_structures (swap_catalog cat) =
  ((compare_structures cat).1.2, (compare_structures cat).1.1,
   prod_swap <$> (compare_structures cat).2).
Proof.
  unfold compare_structures at 1. rewrite connect_swap.
  destruct (connect cat) eqn:Hc.
  - rewrite (compare_structures_connected cat Hc). simpl.
    rewrite !get_tables_swap. simpl swap_conn. f_equal.
    apply map_eq. intros table.
    rewrite lookup_fmap, !compare_loop_lookup, !get_table_structure_swap.
    simpl swap_conn.
    rewrite (intersection_comm_L (list_to_set (get_tables cat Target))).
    destruct (decide (table ∈ _ /\ get_table_structure cat Target table ≠ _))
      as [[Hin Hne]|Hno].
    + rewrite decide_True; [done|]. split; [done|]. by intros Heq; apply Hne.
    + rewrite decide_False; [by rewrite !lookup_empty|].
      intros [Hin Hne]. apply Hno. split; [done|]. by intros Heq; apply Hne.
  - rewrite (compare_structures_not_connected cat Hc). simpl.
    by rewrite fmap_empty.
Qed.

(** X6: when SHOW TABLES fails on the source, with both connections up,
    every table of the target is reported as missing in the source, nothing
    as missing in the target, and no table as different: the failure cannot
    be told from an empty source database. *)
Theorem source_listing_failure_reports_all_missing (cat : Catalog) (e : string) :
  connect cat = true ->
  show_tables cat Source = inl e ->
  compare_structures cat =
    (elements (list_to_set (get_tables cat Target) : gset string), [], ∅).
Proof.
  intros Hc Hfail. rewrite (compare_structures_connected cat Hc).
  assert (Hsrc : get_tables cat Source = []).
  { unfold get_tables. by rewrite Hfail. }
  rewrite Hsrc, list_to_set_nil.
  rewrite difference_empty_L, empty_difference_L.
  rewrite (left_absorb_L ∅ (∩)), elements_empty. reflexivity.
Qed.

Lemma source_listing_failure_reports_all_missing_witness :
  let cat := mkCatalog (fun _ => None)
               (fun c => match c with
                         | Source => inl "1045 (28000): Access denied"
                         | Target => inr ["dosen"; "prodi"]
                         end)
               (fun _ _ => inr [Scenario.nim]) in
  list_to_set (compare_structures cat).1.1 =@{gset string} list_to_set ["dosen"; "prodi"].
Proof.
  intros cat.
  rewrite (source_listing_failure_reports_all_missing cat
             "1045 (28000): Access denied" eq_refl eq_refl).
  simpl. rewrite list_to_set_elements_L. reflexivity.
Defined.

(** X7: when SHOW COLUMNS fails on the source for a table of both
    databases, the table is compared as if the source had no column: it is
    reported as different, with an empty source list, unless the target's
    list is empty as well (its own SHOW COLUMNS failed), in which case it is
    not reported. *)
Theorem source_columns_failure_is_empty_structure (cat : Catalog)
    (table e : string) :
  connect cat = true ->
  table ∈ get_tables cat Source ->
  table ∈ get_tables cat Target ->
  show_columns cat Source table = inl e ->
  (compare_structures cat).2 !! table =
    match get_table_structure cat Target table with
    | [] => None
    | target_structure => Some ([], target_structure)
    end.
Proof.
  intros Hc HS HT Hfail. rewrite (compare_structures_connected cat Hc). simpl.
  rewrite compare_loop_lookup.
  assert (Hsrc : get_table_structure cat Source table = []).
  { unfold get_table_structure. by rewrite Hfail. }
  rewrite Hsrc.
  destruct (get_table_structure cat Target table) as [|col rest].
  - rewrite decide_False; [apply lookup_empty|]. by intros [_ Hne].
  - rewrite decide_True; [done|]. split; [|done].
    apply elem_of_elements, elem_of_intersection.
    split; by apply elem_of_list_to_set.
Qed.

Lemma source_columns_failure_is_empty_structure_witness :
  let cat := mkCatalog (fun _ => None) (fun _ => inr ["mahasiswa"])
               (fun c _ => match c with
                           | Source => inl "1142 (42000): SELECT command denied"
                           | Target => inr [Scenario.nim]
                           end) in
  (compare_structures cat).2 !! "mahasiswa" = Some ([], [Scenario.nim]).
Proof.
  intros cat.
  assert (Hin : "mahasiswa" ∈ ["mahasiswa"]) by apply list_elem_of_here.
  apply (source_columns_failure_is_empty_structure cat "mahasiswa"
           "1142 (42000): SELECT command denied" eq_refl Hin Hin eq_refl).
Defined.



(** ** The handler of the special tables, further *)

(** A loop that executes one statement per element stops at the first
    statement that raises. *)
Lemma execute_loop_run {A} (srv : Server) (statement : A -> string) (l : list A)
    (h : list event) :
  for_in l (fun (_ : unit) x => execute srv Source (statement x) []) tt h
    = (Returned tt, went_through ∘ statement <$> l) \/
  exists done x rest e,
    l = done ++ x :: rest /\
    for_in l (fun (_ : unit) x => execute srv Source (statement x) []) tt h
      = (Raised e, (went_through ∘ statement <$> done)
                     ++ [Execute Source (statement x) [] (Some e)]).
Proof.
  revert h. induction l as [|x l IH]; intros h; [by left|].
  cbn [for_in]. rewrite run_execute_bind.
  destruct (execute_error srv h Source (statement x) []) as [e|].
  - right. by exists [], x, l, e.
  - destruct (IH (h ++ [Execute Source (statement x) [] None]))
      as [->|(done & y & rest & e & -> & ->)].
    + by left.
    + right. by exists (x :: done), y, rest, e.
Qed.

Lemma run_fetch_bind {A B} (srv : Server) (rows : Server -> list event -> A)
    (k : A -> Run B) (h : list event) :
  (fetch srv rows ≫= k) h = k (rows srv h) h.
Proof.
  rewrite run_bind. unfold fetch. rewrite app_nil_r.
  by destruct (k (rows srv h) h).
Qed.

Section HandlerFurther.

Variable srv : Server.

(** X9: step 1 of the handler never fails the handler.  When the query for
    the constraints raises, nothing is dropped.  Otherwise the foreign keys
    are dropped in the order the query returned them, up to the first DROP
    that raises: the constraints after it are left in place, and the handler
    goes on with step 2 all the same. *)
Theorem drop_constraints_stops_at_first_error (h : list event) :
  let select_ok := went_through SQL.select_constraints in
  let constraints := constraint_rows srv (h ++ [select_ok]) in
  (exists e, drop_constraints srv h
     = (Returned tt, [Execute Source SQL.select_constraints [] (Some e)])) \/
  drop_constraints srv h
    = (Returned tt, select_ok :: (went_through ∘ SQL.drop_foreign_key <$> constraints)) \/
  (exists done name rest e,
     constraints = done ++ name :: rest /\
     drop_constraints srv h
       = (Returned tt,
          select_ok :: (went_through ∘ SQL.drop_foreign_key <$> done)
            ++ [Execute Source (SQL.drop_foreign_key name) [] (Some e)])).
Proof.
  intros select_ok constraints. unfold drop_constraints.
  rewrite run_try, run_execute_bind.
  destruct (execute_error srv h Source SQL.select_constraints []) as [e|].
  { left. by exists e. }
  rewrite run_fetch_bind. right.
  destruct (execute_loop_run srv SQL.drop_foreign_key constraints (h ++ [select_ok]))
    as [Hrun|(done & name & rest & e & Hsplit & Hrun)];
    unfold constraints, select_ok, went_through in Hrun; rewrite Hrun.
  - by left.
  - right. exists done, name, rest, e. split; [done|]. simpl. by rewrite app_nil_r.
Qed.


End HandlerFurther.

Lemma emits_commit (P : event -> Prop) (srv : Server) :
  (forall error, P (Commit error)) -> emits P (commit srv).
Proof. intros HP h. unfold commit. simpl. apply Forall_singleton, HP. Qed.

Lemma emits_rollback (P : event -> Prop) (srv : Server) :
  (forall raised, P (Rollback raised)) -> emits P (rollback_quietly srv).
Proof. intros HP h. unfold rollback_quietly. simpl. apply Forall_singleton, HP. Qed.

Section HandlerWhole.

Variable srv : Server.

Lemma source_execute_on_source (operation : string) :
  emits on_source (execute srv Source operation []).
Proof. by apply emits_execute. Qed.

Lemma handle_dosen_tables_on_source : emits on_source (handle_dosen_tables srv).
Proof.
  unfold handle_dosen_tables. apply emits_try.
  - apply emits_bind.
    { unfold drop_constraints. apply emits_try; [|intros; apply emits_ret].
      apply emits_bind; [apply source_execute_on_source|]. intros _.
      apply emits_bind; [apply emits_fetch|]. intros constraints.
      apply emits_for_in. intros _ name. apply source_execute_on_source. }
    intros _. apply emits_bind.
    { unfold fix_dosen_index. apply emits_try.
      - apply emits_bind; [apply source_execute_on_source|]. intros _.
        apply emits_bind; [apply emits_fetch|]. intros count.
        destruct (negb _); [apply source_execute_on_source|apply emits_ret].
      - intros e. destruct (negb _); [apply emits_raise|apply emits_ret]. }
    intros _. apply emits_bind; [|intros; apply emits_ret].
    unfold recreate_dosen_wali_prodi.
    repeat (apply emits_bind; [apply source_execute_on_source|]; intros _).
    by apply emits_commit.
  - intros e. apply emits_bind; [by apply emits_rollback|]. intros _. apply emits_ret.
Qed.

(** X11: [handle_dosen_tables] always returns: no [Error] and no other
    exception leaves it.  When it returns [True] its last call is a commit
    that went through; when it returns [False] its last call is a rollback.
    It makes no call on the target connection. *)
Theorem handle_dosen_tables_always_returns (h : list event) :
  exists handled t,
    handle_dosen_tables srv h = (Returned handled, t) /\
    (handled = true -> last t = Some (Commit None)) /\
    (handled = false -> exists raised, last t = Some (Rollback raised)) /\
    Forall on_source t.
Proof.
  destruct (handle_dosen_tables_runs srv h) as (handled & t & Hrun & Hshape).
  exists handled, t. split; [done|].
  assert (Hsrc := handle_dosen_tables_on_source h). rewrite Hrun in Hsrc.
  split; [|split; [|exact Hsrc]].
  - intros ->. apply handler_true_run in Hshape as (prep & _ & ->).
    by rewrite !app_assoc, last_snoc.
  - intros ->. destruct (handler_false_run t Hshape) as [(t0 & rb & -> & _) _].
    exists rb. by rewrite last_snoc.
Qed.

(** X12: when the handler returns [True], FOREIGN_KEY_CHECKS is on
    afterwards, whatever it was before, and the open transaction is empty:
    what [sync_structures] does after the handler runs with the checks on
    although [sync_structures] had switched them off. *)
Theorem handler_success_switches_checks_on (h t : list event) (enabled : bool)
    (st : list string * list string) :
  handle_dosen_tables srv h = (Returned true, t) ->
  foldl fk_checks_step enabled t = true /\
  (foldl transaction_step st t).1 = [].
Proof.
  intros Hrun.
  destruct (handle_dosen_tables_runs srv h) as (handled & t' & Hrun' & Hshape).
  rewrite Hrun in Hrun'. injection Hrun' as <- <-.
  apply handler_true_run in Hshape as (prep & Hprep & ->). split.
  - rewrite foldl_app, (fk_checks_plain prep) by done. reflexivity.
  - rewrite app_assoc, foldl_app. reflexivity.
Qed.

End HandlerWhole.

Lemma handler_success_switches_checks_on_witness :
  let t := (handle_dosen_tables Scenario.all_ok [off_ok]).2 in
  fk_checks_enabled (off_ok :: t) = true.
Proof.
  intros t.
  assert (Hrun : handle_dosen_tables Scenario.all_ok [off_ok] = (Returned true, t)).
  { vm_compute. reflexivity. }
  destruct (handler_success_switches_checks_on Scenario.all_ok [off_ok] t false
              ([], []) Hrun) as [Hon _].
  exact Hon.
Defined.

(** ** [sync_structures], further *)





Section SyncFurther.

Variable srv : Server.
Variable strip_foreign_keys : string -> string.
Variable strip_auto_increment : string -> string.







Variable cat : Catalog.



End SyncFurther.

Lemma no_raise_execute_caught (srv : Server) : no_raise (rollback_quietly srv;; mret false).
Proof.
  apply no_raise_bind; [apply no_raise_rollback|]. intros _. apply no_raise_ret.
Qed.

Lemma handle_dosen_tables_no_crash (srv : Server) : no_crash (handle_dosen_tables srv).
Proof.
  intros h. destruct (handle_dosen_tables_runs srv h) as (handled & t & -> & _). done.
Qed.

Section SyncOutcome.

Variable srv : Server.
Variable strip_foreign_keys : string -> string.
Variable strip_auto_increment : string -> string.

Lemma synchronise_no_raise (missing_in_source : list string)
    (different_structures : gmap string (list Column * list Column)) :
  no_raise (synchronise srv strip_foreign_keys strip_auto_increment
              missing_in_source different_structures).
Proof.
  unfold synchronise. apply no_raise_try. intros e. apply no_raise_execute_caught.
Qed.

(** With no [Error] on the rules query that speaks of a missing index, a
    round of the foreign-key loop cannot read [fk_stmt] before it is bound. *)
Lemma add_foreign_key_no_crash (table : string) (fk_stmt : option string)
    (row : string * string * string * string) :
  (forall h params e, execute_error srv h Target SQL.select_rules params = Some e ->
     PyStr.contains "Missing index" e = false) ->
  no_crash (add_foreign_key srv table fk_stmt row).
Proof.
  intros Hrules h. unfold add_foreign_key.
  destruct row as [[[col ref_table] ref_col] constraint_name].
  rewrite run_bind, run_try, run_execute_bind.
  destruct (execute_error srv h Target SQL.select_rules _) as [e|] eqn:Hquery.
  - apply Hrules in Hquery. simpl. unfold on_foreign_key_error. rewrite Hquery.
    simpl. done.
  - simpl.
    match goal with
    | |- (let (_, _) := ?m ?h' in _).1 ≠ _ =>
        assert (Hrest : no_crash m); [|specialize (Hrest h'); by destruct (m h')]
    end.
    apply no_crash_bind; [apply no_crash_fetch|]. intros rules.
    destruct (default _ rules) as [delete_rule update_rule].
    apply no_crash_bind; [|intros _; apply no_crash_ret].
    apply no_crash_try; [apply no_crash_execute|].
    intros e. unfold on_foreign_key_error.
    destruct (PyStr.contains _ _); [|apply no_crash_ret].
    apply no_crash_bind; [apply no_crash_execute|]. intros _. apply no_crash_execute.
Qed.

Lemma synchronise_no_crash (missing_in_source : list string)
    (different_structures : gmap string (list Column * list Column)) :
  (forall h params e, execute_error srv h Target SQL.select_rules params = Some e ->
     PyStr.contains "Missing index" e = false) ->
  no_crash (synchronise srv strip_foreign_keys strip_auto_increment
              missing_in_source different_structures).
Proof.
  intros Hrules. unfold synchronise. apply no_crash_try.
  - apply no_crash_bind; [apply no_crash_execute|]. intros _.
    apply no_crash_bind.
    { destruct (_ || _); [apply handle_dosen_tables_no_crash|apply no_crash_ret]. }
    intros handled. destruct (negb handled); [apply no_crash_ret|].
    apply no_crash_bind.
    { apply no_crash_for_in. intros s table. unfold create_missing_table.
      destruct (negb _); [|apply no_crash_ret].
      apply no_crash_bind; [apply no_crash_execute|]. intros _.
      apply no_crash_bind; [apply no_crash_fetch|]. intros create_stmt.
      apply no_crash_bind.
      { apply no_crash_try; [apply no_crash_execute|]. intros e. apply no_crash_raise. }
      intros _. apply no_crash_bind; [apply no_crash_execute|]. intros _.
      apply no_crash_bind; [apply no_crash_fetch|]. intros rows.
      apply no_crash_for_in. intros s' row. by apply add_foreign_key_no_crash. }
    intros _. apply no_crash_bind; [apply no_crash_execute|]. intros _.
    apply no_crash_bind; [apply no_crash_commit|]. intros _. apply no_crash_ret.
  - intros e. apply no_crash_bind; [apply no_crash_rollback|].
    intros _. apply no_crash_ret.
Qed.

Variable cat : Catalog.

(** X15: no [mysql.connector.Error] leaves [sync_structures]: whatever the
    servers answer, the method returns a boolean or ends in an exception of
    another kind. *)
Theorem sync_structures_raises_no_error (e : string) :
  (sync_structures srv strip_foreign_keys strip_auto_increment cat).1 ≠ Raised e.
Proof.
  unfold sync_structures.
  destruct (compare_structures cat) as [[missing_in_source missing_in_target] ds].
  destruct (negb _); [done|]. apply synchronise_no_raise.
Qed.

(** X16: if no [Error] raised by the query for the rules of a foreign key
    has [Missing index] in its text, [sync_structures] returns a boolean,
    whatever else the servers answer. *)
Theorem sync_structures_returns :
  (forall h params e, execute_error srv h Target SQL.select_rules params = Some e ->
     PyStr.contains "Missing index" e = false) ->
  exists result t,
    sync_structures srv strip_foreign_keys strip_auto_increment cat
    = (Returned result, t).
Proof.
  intros Hrules. unfold sync_structures.
  destruct (compare_structures cat) as [[missing_in_source missing_in_target] ds].
  destruct (negb _); [by exists true, []|].
  apply returns; [by apply synchronise_no_crash|apply synchronise_no_raise].
Qed.



End SyncOutcome.

Lemma sync_structures_returns_witness :
  exists result t,
    sync_structures Scenario.create_fails Scenario.no_match Scenario.no_match
      Scenario.roster_missing = (Returned result, t).
Proof. apply sync_structures_returns. intros h params e. simpl. discriminate. Defined.



(** ** One foreign key of a created table *)

Section ForeignKey.

Variable srv : Server.

Lemma rules_query_stage (params : list string) (h : list event) :
  try_except (execute srv Target SQL.select_rules params;; mret None)
    (fun e => mret (Some e)) h =
  match execute_error srv h Target SQL.select_rules params with
  | None => (Returned None, [Execute Target SQL.select_rules params None])
  | Some e => (Returned (Some e), [Execute Target SQL.select_rules params (Some e)])
  end.
Proof.
  rewrite run_try, run_execute_bind.
  by destruct (execute_error srv h Target SQL.select_rules params).
Qed.

(** What a round of the foreign-key loop does once the query for the rules
    has gone through: it executes the statement built from the rules, and
    turns to [on_foreign_key_error] when that raises. *)
Lemma add_foreign_key_queried (table col ref_table ref_col constraint_name : string)
    (fk_stmt : option string) (h : list event) :
  let query := Execute Target SQL.select_rules
                 [target_database srv; constraint_name] None in
  let stmt := foreign_key_statement table col ref_table ref_col
                (rules_row srv (h ++ [query])) in
  execute_error srv h Target SQL.select_rules [target_database srv; constraint_name]
    = None ->
  add_foreign_key srv table fk_stmt (col, ref_table, ref_col, constraint_name) h =
  match execute_error srv (h ++ [query]) Source stmt [] with
  | None => (Returned (Some stmt), [query; went_through stmt])
  | Some e =>
      let failed := Execute Source stmt [] (Some e) in
      let (r, t) := on_foreign_key_error srv table col (Some stmt) e
                      (h ++ [query; failed]) in
      (match r with
       | Returned _ => Returned (Some stmt)
       | Raised e' => Raised e'
       | Crashed => Crashed
       end, query :: failed :: t)
  end.
Proof.
  intros query stmt Hquery. unfold add_foreign_key.
  rewrite run_bind, rules_query_stage, Hquery. cbv iota beta.
  rewrite run_fetch_bind. fold query.
  subst stmt. unfold foreign_key_statement.
  destruct (default ("RESTRICT", "RESTRICT") (rules_row srv (h ++ [query])))
    as [delete_rule update_rule].
  cbv zeta.
  match goal with
  | |- context [execute srv Source ?s []] => set (stmt := s)
  end.
  rewrite run_bind, run_try. unfold execute at 1.
  destruct (execute_error srv (h ++ [query]) Source stmt []) as [e|].
  - rewrite <- app_assoc. cbn [app].
    destruct (on_foreign_key_error srv table col (Some stmt) e _) as [[[]|e'|] t];
      cbn; by rewrite ?app_nil_r.
  - reflexivity.
Qed.

(** X19: when adding a foreign key raises an [Error] whose text does not
    have [Missing index] in it, the error is dropped: the round ends
    normally after the failed statement, the loop goes on, and the foreign
    key is not added. *)
Theorem foreign_key_error_is_dropped
    (table col ref_table ref_col constraint_name e : string)
    (fk_stmt : option string) (h : list event) :
  let query := Execute Target SQL.select_rules
                 [target_database srv; constraint_name] None in
  let stmt := foreign_key_statement table col ref_table ref_col
                (rules_row srv (h ++ [query])) in
  execute_error srv h Target SQL.select_rules [target_database srv; constraint_name]
    = None ->
  execute_error srv (h ++ [query]) Source stmt [] = Some e ->
  PyStr.contains "Missing index" e = false ->
  add_foreign_key srv table fk_stmt (col, ref_table, ref_col, constraint_name) h
  = (Returned (Some stmt), [query; Execute Source stmt [] (Some e)]).
Proof.
  intros query stmt Hquery Hadd Hmsg.
  rewrite add_foreign_key_queried by done. fold query. fold stmt. rewrite Hadd.
  unfold on_foreign_key_error. rewrite Hmsg. reflexivity.
Qed.

(** X20: when adding a foreign key raises an [Error] that speaks of a
    missing index, an index on the column is added and the same statement is
    executed once more, and only once: if it raises again, or if adding the
    index raises, the [Error] leaves the loop. *)
Theorem missing_index_is_retried_once
    (table col ref_table ref_col constraint_name e : string)
    (fk_stmt : option string) (h : list event) :
  let query := Execute Target SQL.select_rules
                 [target_database srv; constraint_name] None in
  let stmt := foreign_key_statement table col ref_table ref_col
                (rules_row srv (h ++ [query])) in
  let failed := Execute Source stmt [] (Some e) in
  let index := SQL.add_index table col in
  execute_error srv h Target SQL.select_rules [target_database srv; constraint_name]
    = None ->
  execute_error srv (h ++ [query]) Source stmt [] = Some e ->
  PyStr.contains "Missing index" e = true ->
  add_foreign_key srv table fk_stmt (col, ref_table, ref_col, constraint_name) h =
  match execute_error srv (h ++ [query; failed]) Source index [] with
  | Some e' => (Raised e', [query; failed; Execute Source index [] (Some e')])
  | None =>
      let again := execute_error srv (h ++ [query; failed; went_through index])
                     Source stmt [] in
      (match again with
       | None => Returned (Some stmt)
       | Some e' => Raised e'
       end,
       [query; failed; went_through index; Execute Source stmt [] again])
  end.
Proof.
  intros query stmt failed index Hquery Hadd Hmsg.
  rewrite add_foreign_key_queried by done. fold query. fold stmt. rewrite Hadd.
  fold failed. unfold on_foreign_key_error. rewrite Hmsg.
  rewrite run_execute_bind. fold index.
  destruct (execute_error srv (h ++ [query; failed]) Source index []) as [e'|];
    [done|].
  unfold execute. rewrite <- app_assoc. cbn [app]. unfold went_through.
  by destruct (execute_error srv
                 (h ++ [query; failed; Execute Source index [] None]) Source stmt []).
Qed.

(** X21: when the query for the rules itself raises an [Error] that speaks
    of a missing index, the handler of the loop reads [fk_stmt] as the
    previous round left it.  In the first round ever it is not bound, and
    once the index is added the method ends in an exception that is not an
    [Error]: it neither rolls back nor returns.  In a later round the
    statement of the previous foreign key is executed again. *)
Theorem rules_error_reads_stale_statement
    (table col ref_table ref_col constraint_name e : string) (h : list event) :
  let query := Execute Target SQL.select_rules
                 [target_database srv; constraint_name] (Some e) in
  let index := went_through (SQL.add_index table col) in
  execute_error srv h Target SQL.select_rules [target_database srv; constraint_name]
    = Some e ->
  PyStr.contains "Missing index" e = true ->
  execute_error srv (h ++ [query]) Source (SQL.add_index table col) [] = None ->
  add_foreign_key srv table None (col, ref_table, ref_col, constraint_name) h
    = (Crashed, [query; index]) /\
  forall previous,
    add_foreign_key srv table (Some previous)
      (col, ref_table, ref_col, constraint_name) h =
    let again := execute_error srv (h ++ [query; index]) Source previous [] in
    (match again with
     | None => Returned (Some previous)
     | Some e' => Raised e'
     end,
     [query; index; Execute Source previous [] again]).
Proof.
  intros query index Hquery Hmsg Hindex. split; [|intros previous];
    unfold add_foreign_key;
    rewrite run_bind, rules_query_stage, Hquery; cbv iota beta; fold query;
    rewrite run_bind; unfold on_foreign_key_error; rewrite Hmsg;
    rewrite run_execute_bind, Hindex; fold index.
  - reflexivity.
  - unfold execute. rewrite <- app_assoc. cbn [app]. subst index. unfold went_through.
    by destruct (execute_error srv
                   (h ++ [query; Execute Source (SQL.add_index table col) [] None])
                   Source previous []).
Qed.

End ForeignKey.

Lemma foreign_key_error_is_dropped_witness :
  (add_foreign_key Further.foreign_key_refused "orders" None
     ("customer_id", "customers", "id", "orders_ibfk_1") []).1
  = Returned (Some (SQL.add_constraint "orders" "customer_id" "customers" "id"
                      +:+ " ON DELETE CASCADE")).
Proof.
  rewrite (foreign_key_error_is_dropped Further.foreign_key_refused
             "orders" "customer_id" "customers" "id" "orders_ibfk_1"
             "1215 (HY000): Cannot add foreign key constraint" None []);
    vm_compute; reflexivity.
Defined.

Lemma missing_index_is_retried_once_witness :
  (add_foreign_key Further.index_missing "orders" None
     ("customer_id", "customers", "id", "orders_ibfk_1") []).1
  = Returned (Some (SQL.add_constraint "orders" "customer_id" "customers" "id")).
Proof.
  rewrite (missing_index_is_retried_once Further.index_missing
             "orders" "customer_id" "customers" "id" "orders_ibfk_1"
             "1822 (HY000): Failed to add the foreign key constraint. Missing index for constraint"
             None []);
    vm_compute; reflexivity.
Defined.

Lemma rules_error_reads_stale_statement_witness :
  (add_foreign_key Further.rules_query_fails "orders" None
     ("customer_id", "customers", "id", "orders_ibfk_1") []).1 = Crashed.
Proof.
  destruct (rules_error_reads_stale_statement Further.rules_query_fails
              "orders" "customer_id" "customers" "id" "orders_ibfk_1"
              "1105 (HY000): Missing index statistics" [] eq_refl eq_refl eq_refl)
    as [Hcrash _].
  by rewrite Hcrash.
Defined.

(** ** The text of a created table *)

Lemma rsplit1_none (sep : ascii) (s : string) :
  ~ occurs sep s -> PyStr.rsplit1 sep s = None.
Proof.
  induction s as [|c s IH]; intros Hno; [done|].
  simpl in *. rewrite IH by tauto.
  destruct (Ascii.eqb_spec c sep) as [->|Hne]; [|done]. tauto.
Qed.


Section CreateStatement.

Variable strip_foreign_keys : string -> string.
Variable strip_auto_increment : string -> string.


(** X23: a text without a closing parenthesis is executed as the removal of
    the foreign keys left it: its AUTO_INCREMENT value is not removed. *)
Theorem create_statement_without_parenthesis (create_stmt : string) :
  ~ occurs ")" (strip_foreign_keys create_stmt) ->
  clean_create_statement strip_foreign_keys strip_auto_increment create_stmt
  = strip_foreign_keys create_stmt.
Proof.
  intros Hno. unfold clean_create_statement. by rewrite rsplit1_none.
Qed.

End CreateStatement.


Lemma create_statement_without_parenthesis_witness :
  clean_create_statement Scenario.no_match Scenario.no_match
    "CREATE VIEW v AS SELECT 1 AUTO_INCREMENT=5"
  = "CREATE VIEW v AS SELECT 1 AUTO_INCREMENT=5".
Proof.
  apply (create_statement_without_parenthesis Scenario.no_match Scenario.no_match
           "CREATE VIEW v AS SELECT 1 AUTO_INCREMENT=5").
  vm_compute. intros H. repeat (destruct H as [H|H]; [discriminate H|]). exact H.
Defined.

(** ** The comparator's connections *)

(** X24: [close_connections] calls [close()] on the connections that are
    connected and on no other, the source first, so that none is connected
    afterwards; called again it calls nothing and changes nothing; and on a
    comparator that never connected it calls nothing. *)
Theorem close_connections_is_idempotent (self : Comparator) :
  let after := (close_connections self).1 in
  (close_connections self).2 =
    (if decide (source_conn self = Some true) then [Source] else [])
    ++ (if decide (target_conn self = Some true) then [Target] else []) /\
  source_conn after ≠ Some true /\
  target_conn after ≠ Some true /\
  close_connections after = (after, []) /\
  close_connections new_comparator = (new_comparator, []).
Proof. by destruct self as [[[]|] [[]|]]. Qed.

Lemma connect_comparator_connect (cat : Catalog) (self : Comparator) :
  (connect_comparator cat self).1 = connect cat.
Proof.
  unfold connect_comparator, connect.
  by destruct (connect_error cat Source), (connect_error cat Target).
Qed.

(** X25: [connect] on a new comparator returns what [connect] returns and
    keeps every connection it established, also when it returns [False]: if
    only the target fails, the source connection stays open.
    [close_connections] afterwards closes exactly the connections that were
    established. *)
Theorem connect_then_close (cat : Catalog) :
  let connected := connect_comparator cat new_comparator in
  connected.1 = connect cat /\
  (close_connections connected.2).2 =
    match connect_error cat Source, connect_error cat Target with
    | Some _, _ => []
    | None, Some _ => [Source]
    | None, None => [Source; Target]
    end.
Proof.
  split; [apply connect_comparator_connect|].
  unfold connect_comparator.
  by destruct (connect_error cat Source), (connect_error cat Target).
Qed.

(** ** The entry point *)

(** X26: when the databases cannot be reached, neither for the comparison
    nor for the synchronisation, and the user answers [y] or [Y], [main]
    reports no difference, makes no call on a connection, and logs
    [Synchronization completed successfully]. *)
Theorem main_reports_success_when_unreachable (srv : Server)
    (strip_foreign_keys strip_auto_increment : string -> string)
    (at_comparison at_sync : Catalog) (answer : string) :
  connect at_comparison = false ->
  connect at_sync = false ->
  PyStr.lower answer = "y" ->
  main srv strip_foreign_keys strip_auto_increment at_comparison at_sync answer =
  ([Info "Synchronization completed successfully"], Some (Returned true, [])).
Proof.
  intros Hcmp Hsync Hanswer. unfold main, sync_structures.
  rewrite !compare_structures_not_connected by done.
  rewrite Hanswer, map_to_list_empty. reflexivity.
Qed.

Lemma main_reports_success_when_unreachable_witness :
  main Scenario.all_ok Scenario.no_match Scenario.no_match
    Scenario.unreachable Scenario.unreachable "Y" =
  ([Info "Synchronization completed successfully"], Some (Returned true, [])).
Proof. by apply main_reports_success_when_unreachable. Defined.
